(** * DGPSimulation: bow-tie random graph sampler

    A shallow embedding of [adhoc/SimulationNotebook/DGPSimulation.py]:
    node-type sampling, edge construction under the type constraints, the
    rejection-sampling loop with reciprocal injection, and the two
    statistics (reciprocity rate and node-type distribution).

    Python floats are IEEE 754 binary64 numbers; they are modelled with the
    computable specification [SpecFloat] ([prec = 53], [emax = 1024]), so
    every rounding of the source is the rounding of the model.  The module
    [random] is modelled as a tape of raw integers read through a cursor. *)

From Stdlib Require Import ZArith List String Ascii Bool Lia DecimalString.
From Stdlib Require Import DecimalZ DecimalPos.
From Stdlib Require Import Floats.SpecFloat.
From stdpp Require Import gmap strings list.

Local Open Scope string_scope.

(** ** Binary64 arithmetic *)

Module F64.

Definition prec : Z := 53.
Definition emax : Z := 1024.

Definition float := spec_float.

Definition add : float -> float -> float := SFadd prec emax.
Definition mul : float -> float -> float := SFmul prec emax.
Definition div : float -> float -> float := SFdiv prec emax.

(** [a < b] and [a <= b]; both are false when an operand is a NaN. *)
Definition ltb : float -> float -> bool := SFltb.
Definition leb : float -> float -> bool := SFleb.

(** The nearest binary64 number to the integer [n] (exact below 2^53). *)
Definition of_Z (n : Z) : float := binary_normalize prec emax n 0 false.

(** The decimal literal [n/d], e.g. [0.78] is [dec 78 100]: a literal
    denotes the binary64 number nearest to its decimal value, which is what a
    correctly rounded division of two exactly representable integers
    yields. *)
Definition dec (n d : Z) : float := div (of_Z n) (of_Z d).

Definition zero : float := of_Z 0.
Definition one : float := of_Z 1.

Definition is_finite (x : float) : bool :=
  match x with
  | S754_zero _ | S754_finite _ _ _ => true
  | S754_infinity _ | S754_nan => false
  end.

(** The exact value of a finite number is [m * 2^e]; [trunc] rounds it
    towards zero and [floor] towards minus infinity. *)
Definition signed (s : bool) (m : positive) : Z :=
  if s then Z.neg m else Z.pos m.

Definition trunc (x : float) : Z :=
  match x with
  | S754_finite s m e =>
      if (0 <=? e)%Z then (signed s m * 2 ^ e)%Z
      else Z.quot (signed s m) (2 ^ (- e))
  | _ => 0%Z
  end.


End F64.

(** ** Exceptions and results *)

Inductive exn : Type :=
  | TypeError (msg : string)
  | ValueError
  | IndexError
  | OverflowError
  | ZeroDivisionError
  | AttributeError.

(** The outcome of running a piece of the program: a value, a raised
    exception, or [OutOfFuel] when a loop has used up its fuel. *)
Inductive result (A : Type) : Type :=
  | Ret (a : A)
  | Raise (e : exn)
  | OutOfFuel.

Arguments Ret {A} a.
Arguments Raise {A} e.
Arguments OutOfFuel {A}.

(** Python's [int(x)] on a float: truncation, with an error on NaN and on the
    infinities. *)
Definition int_of_float (x : F64.float) : result Z :=
  match x with
  | S754_nan => Raise ValueError
  | S754_infinity _ => Raise OverflowError
  | _ => Ret (F64.trunc x)
  end.

(** The implicit conversion of an [int] operand in mixed arithmetic; it
    raises when the integer is beyond the binary64 range. *)
Definition float_of_int (n : Z) : result F64.float :=
  match F64.of_Z n with
  | S754_infinity _ => Raise OverflowError
  | x => Ret x
  end.

(** ** Node types and the type sampler *)

Inductive NodeType : Type := GSCC | GOUT | GIN | DC.

(** The [value] of a member of the enumeration. *)
Definition value (t : NodeType) : string :=
  match t with
  | GSCC => "GSCC"
  | GOUT => "GOUT"
  | GIN => "GIN"
  | DC => "DC"
  end.

#[global] Instance NodeType_eq_dec : EqDecision NodeType.
Proof. solve_decision. Defined.

Module NodeSampler.

(** The class attribute [samplingrate]; a [dict] is iterated in insertion
    order, so it is an association list. *)
Definition samplingrate : list (NodeType * F64.float) :=
  [ (GSCC, F64.dec 78 100);
    (GOUT, F64.dec 12 100);
    (GIN,  F64.dec 8 100);
    (DC,   F64.dec 2 100) ].

(** The [for] loop of [sampleNode] over a table, started with the running
    total [rtotal]; [None] is Python's [None], returned when the loop falls
    off the end of the table. *)
Fixpoint scan (table : list (NodeType * F64.float)) (rtotal rvar : F64.float)
  : option NodeType :=
  match table with
  | [] => None
  | (k, w) :: rest =>
      let rtotal := F64.add rtotal w in
      if F64.leb rvar rtotal then Some k else scan rest rtotal rvar
  end.

(** [sampleNode], as a function of the value drawn for [rvar]. *)
Definition sampleNode (rvar : F64.float) : option NodeType :=
  scan samplingrate F64.zero rvar.

End NodeSampler.

(** ** Nodes and edges *)

Record Node : Type := mkNode { Name : string; Type_ : option NodeType }.

Definition getName (n : Node) : string := Name n.
Definition getType (n : Node) : option NodeType := Type_ n.

(** [n.Type == NodeType.t] *)
Definition has_type (n : Node) (t : NodeType) : bool :=
  bool_decide (Type_ n = Some t).

Record Edge : Type := mkEdge { Source : Node; Dest : Node; Reciproc : bool }.

(** [Edge.__init__] *)
Definition Edge_init (Source Dest : Node) : result Edge :=
  if has_type Source GOUT || has_type Dest GIN then
    Raise (TypeError "Direction constraint")
  else if (has_type Source DC && negb (has_type Dest DC))
          || (has_type Dest DC && negb (has_type Source DC)) then
    Raise (TypeError "Disconnected Component constraint")
  else
    Ret {| Source := Source; Dest := Dest;
           Reciproc := has_type Source GSCC && has_type Dest GSCC |}.

Definition getKey (e : Edge) : string :=
  getName (Source e) ++ "->" ++ getName (Dest e).

Definition getSource (e : Edge) : Node := Source e.
Definition getDest (e : Edge) : Node := Dest e.
Definition getReciproc (e : Edge) : bool := Reciproc e.

Definition constructReciproc (e : Edge) : result Edge :=
  Edge_init (Dest e) (Source e).

(** The three validity rules of an edge from [s] to [d]. *)
Definition rule_source (s : Node) : Prop := Type_ s <> Some GOUT.
Definition rule_dest (d : Node) : Prop := Type_ d <> Some GIN.
Definition rule_dc (s d : Node) : Prop :=
  Type_ s = Some DC <-> Type_ d = Some DC.

Definition valid_pair (s d : Node) : Prop :=
  rule_source s /\ rule_dest d /\ rule_dc s d.

Definition is_TypeError {A} (r : result A) : Prop :=
  exists msg, r = Raise (TypeError msg).

(** ** The random source

    The module [random] is not part of the program; it is modelled by a tape
    of raw integers and a cursor.  [random()] is a multiple of 2^-53 in
    [0, 1), and [sample] draws positions without replacement, raising
    [ValueError] when the population is smaller than the sample. *)

Definition Rand (A : Type) : Type := nat -> result (A * nat).

Definition ret {A} (a : A) : Rand A := fun t => Ret (a, t).

Definition bind {A B} (m : Rand A) (f : A -> Rand B) : Rand B :=
  fun t =>
    match m t with
    | Ret (a, t') => f a t'
    | Raise e => Raise e
    | OutOfFuel => OutOfFuel
    end.

Definition lift {A} (r : result A) : Rand A :=
  fun t =>
    match r with
    | Ret a => Ret (a, t)
    | Raise e => Raise e
    | OutOfFuel => OutOfFuel
    end.

Notation "'let*' x ':=' m 'in' k" := (bind m (fun x => k))
  (at level 10, x name, m at level 100, k at level 200, only parsing).

Fixpoint mapM {A B} (f : A -> Rand B) (l : list A) : Rand (list B) :=
  match l with
  | [] => ret []
  | x :: l' =>
      let* y := f x in
      let* ys := mapM f l' in
      ret (y :: ys)
  end.

(** [range(n)] and ['{}'.format(x)] for an integer [x]. *)
Definition range (n : Z) : list Z := seqZ 0 n.
Definition format_int (x : Z) : string := NilZero.string_of_int (Z.to_int x).

Section Sampler.

(** The tape of raw draws. *)
Variable tape : nat -> Z.

Definition random : Rand F64.float :=
  fun t =>
    Ret (binary_normalize F64.prec F64.emax (tape t mod 2 ^ 53) (-53) false,
         S t).

(** [k] elements taken from [pool] without replacement. *)
Fixpoint sample_from {A} (pool : list A) (k : nat) (t : nat)
  : list A * nat :=
  match k with
  | O => ([], t)
  | S k' =>
      let j := Z.to_nat (tape t mod Z.of_nat (length pool)) in
      match pool !! j with
      | Some x =>
          let '(rest, t') := sample_from (delete j pool) k' (S t) in
          (x :: rest, t')
      | None => ([], t)
      end
  end.

Definition sample {A} (population : list A) (k : nat) : Rand (list A) :=
  fun t =>
    if (length population <? k)%nat then Raise ValueError
    else Ret (sample_from population k t).

(** [Node.__init__]: the type is drawn first, then the name is stored. *)
Definition Node_init (Name : string) : Rand Node :=
  let* rvar := random in
  ret {| Name := Name; Type_ := NodeSampler.sampleNode rvar |}.

(** *** [EdgeSampler] *)

Record EdgeSampler : Type := mkEdgeSampler {
  sampled_nodes : list Node;
  num_edges : Z;
  reciprocity : F64.float;
  edges : list Edge;
  verbose : bool
}.

(** [connectivity * node_count * (node_count-1)], evaluated left to right
    in binary64. *)
Definition edge_budget (connectivity : F64.float) (node_count : Z)
  : result F64.float :=
  match float_of_int node_count with
  | Ret n1 =>
      match float_of_int (node_count - 1) with
      | Ret n2 => Ret (F64.mul (F64.mul connectivity n1) n2)
      | Raise e => Raise e
      | OutOfFuel => OutOfFuel
      end
  | Raise e => Raise e
  | OutOfFuel => OutOfFuel
  end.

Definition target_edges (connectivity : F64.float) (node_count : Z) : result Z :=
  match edge_budget connectivity node_count with
  | Ret p => int_of_float p
  | Raise e => Raise e
  | OutOfFuel => OutOfFuel
  end.

(** [EdgeSampler.__init__] *)
Definition EdgeSampler_init (node_count : Z) (connectivity reciprocity : F64.float)
    (verbose : bool) : Rand EdgeSampler :=
  let* nodes := mapM (fun x => Node_init (format_int x)) (range node_count) in
  let* n := lift (target_edges connectivity node_count) in
  ret {| sampled_nodes := nodes;
         num_edges := n;
         reciprocity := reciprocity;
         edges := [];
         verbose := verbose |}.

Definition getNodes (self : EdgeSampler) : list Node := sampled_nodes self.

(** [self.edges.append(edge)] *)
Definition append_edge (self : EdgeSampler) (edge : Edge) : EdgeSampler :=
  {| sampled_nodes := sampled_nodes self;
     num_edges := num_edges self;
     reciprocity := reciprocity self;
     edges := edges self ++ [edge];
     verbose := verbose self |}.

(** [sampleEdge]: the [while noSampleYet] loop.  A [TypeError] of the edge
    constructor is caught and the pair is drawn again (the diagnostic line
    printed when [verbose] is set is not part of the model); every other
    exception propagates. *)
Fixpoint sampleEdge (fuel : nat) (self : EdgeSampler) : Rand Edge :=
  match fuel with
  | O => fun _ => OutOfFuel
  | S fuel' =>
      let* edgeSample := sample (sampled_nodes self) 2 in
      match edgeSample with
      | a :: b :: _ =>
          fun t =>
            match Edge_init a b with
            | Ret edge => Ret (edge, t)
            | Raise (TypeError _) => sampleEdge fuel' self t
            | Raise e => Raise e
            | OutOfFuel => OutOfFuel
            end
      | _ => lift (Raise IndexError)
      end
  end.

(** The candidate edge of one round of [sampleEdges]. *)
Definition candidate (fuel : nat) (self : EdgeSampler) (reciproc : list Edge)
  : Rand Edge :=
  let* r := random in
  if F64.ltb (reciprocity self) r || (length reciproc =? 0)%nat then
    sampleEdge fuel self
  else
    let* picked := sample reciproc 1 in
    match picked with
    | e :: _ => lift (constructReciproc e)
    | [] => lift (Raise IndexError)
    end.

(** The [while num_edge < self.num_edges] loop of [sampleEdges]; [seen] is
    the local set [edges] of keys. *)
Fixpoint sampleEdges_loop (fuel : nat) (self : EdgeSampler) (num_edge : Z)
    (seen : gset string) (reciproc : list Edge) : Rand EdgeSampler :=
  if negb (num_edge <? num_edges self)%Z then ret self
  else
    match fuel with
    | O => fun _ => OutOfFuel
    | S fuel' =>
        let* edge := candidate fuel' self reciproc in
        if negb (bool_decide (getKey edge ∈ seen)) then
          sampleEdges_loop fuel' (append_edge self edge) (num_edge + 1)
            ({[ getKey edge ]} ∪ seen)
            (if getReciproc edge then reciproc ++ [edge] else reciproc)
        else
          sampleEdges_loop fuel' self num_edge seen reciproc
    end.

(** [sampleEdges]: the seen-key set, the reciprocal pool and the counter
    are locals, created afresh by every call; the edges are appended to the
    list held by the instance, and that list is what is returned. *)
Definition sampleEdges (fuel : nat) (self : EdgeSampler)
  : Rand (list Edge * EdgeSampler) :=
  let* self' := sampleEdges_loop fuel self 0 ∅ [] in
  ret (edges self', self').

End Sampler.

Arguments sampled_nodes : clear implicits.
Arguments num_edges : clear implicits.
Arguments edges : clear implicits.

(** ** Statistics *)

Module InterstingStats.

(** The key of the reverse edge. *)
Definition reciprocalKey (x : Edge) : string :=
  getName (getDest x) ++ "->" ++ getName (getSource x).

(** First loop of [getReciprocityRate]. *)
Definition collect_keys (samples : list Edge) : gset string :=
  fold_left (fun keySet x => {[ getKey x ]} ∪ keySet) samples ∅.

(** Second loop of [getReciprocityRate]. *)
Definition count_reciprocal (keySet : gset string) (samples : list Edge) : Z :=
  fold_left
    (fun reciprocalEdge x =>
       if bool_decide (reciprocalKey x ∈ keySet) then (reciprocalEdge + 1)%Z
       else reciprocalEdge)
    samples 0%Z.

(** [a / n] for a float [a] and an integer [n]. *)
Definition div_int (a : F64.float) (n : Z) : result F64.float :=
  if (n =? 0)%Z then Raise ZeroDivisionError
  else
    match float_of_int n with
    | Ret d => Ret (F64.div a d)
    | Raise e => Raise e
    | OutOfFuel => OutOfFuel
    end.

(** [getReciprocityRate]: the number handed to the formatter
    ['{:.2f}%'], or the exception raised before printing. *)
Definition getReciprocityRate (samples : list Edge) : result F64.float :=
  let keySet := collect_keys samples in
  let reciprocalEdge := count_reciprocal keySet samples in
  match float_of_int reciprocalEdge with
  | Ret c =>
      div_int (F64.mul c (F64.dec 100 1)) (Z.of_nat (size keySet))
  | Raise e => Raise e
  | OutOfFuel => OutOfFuel
  end.

(** [ntdic]: a [dict] from node types to counts, in insertion order.  A
    node whose type is [None] is counted under the key [None]. *)
Definition ntdic_t : Type := list (option NodeType * Z).

(** [if not ntype in ntdic: ntdic[ntype] = 0] followed by
    [ntdic[ntype] += 1]: a new key goes to the end, a known key keeps its
    place. *)
Fixpoint bump (ntype : option NodeType) (ntdic : ntdic_t) : ntdic_t :=
  match ntdic with
  | [] => [(ntype, (0 + 1)%Z)]
  | (k, c) :: rest =>
      if decide (k = ntype) then (k, (c + 1)%Z) :: rest
      else (k, c) :: bump ntype rest
  end.

(** First loop of [getNodeTypeDistribution]. *)
Definition tally (samples : list Node) : ntdic_t :=
  fold_left (fun ntdic sample => bump (getType sample) ntdic) samples [].

(** [c * 100.0 / n] for integers [c] and [n]. *)
Definition percent (c n : Z) : result F64.float :=
  match float_of_int c with
  | Ret x => div_int (F64.mul x (F64.dec 100 1)) n
  | Raise e => Raise e
  | OutOfFuel => OutOfFuel
  end.

(** Second loop of [getNodeTypeDistribution]: one line per key, in the
    order of the dictionary; the percentage is computed first, then
    [nt.value] is read, which fails on the key [None]. *)
Fixpoint report (ntdic : ntdic_t) (slen : Z)
  : result (list (string * F64.float)) :=
  match ntdic with
  | [] => Ret []
  | (nt, c) :: rest =>
      match percent c slen with
      | Ret p =>
          match nt with
          | Some ty =>
              match report rest slen with
              | Ret lines => Ret ((value ty, p) :: lines)
              | Raise e => Raise e
              | OutOfFuel => OutOfFuel
              end
          | None => Raise AttributeError
          end
      | Raise e => Raise e
      | OutOfFuel => OutOfFuel
      end
  end.

(** [getNodeTypeDistribution]: the pairs handed to the formatter
    ['{}:{:.2f}%\n'], line by line, or the exception raised before
    printing. *)
Definition getNodeTypeDistribution (samples : list Node)
  : result (list (string * F64.float)) :=
  let slen := Z.of_nat (length samples) in
  report (tally samples) slen.

End InterstingStats.

(** ** Vocabulary of the specification *)

(** The type sampler as the specification words it: the first type whose
    cumulative weight reaches [rvar], and the last type of the table when
    none does. *)
Definition sample_with_fallback (table : list (NodeType * F64.float))
    (rvar : F64.float) : option NodeType :=
  match NodeSampler.scan table F64.zero rvar with
  | Some k => Some k
  | None => last (fst <$> table)
  end.

(** "Exactly one endpoint has type DC". *)
Definition exactly_one_DC (s d : Node) : Prop :=
  (Type_ s = Some DC /\ Type_ d <> Some DC)
  \/ (Type_ d = Some DC /\ Type_ s <> Some DC).

(** "At least one validity rule is violated". *)
Definition violates (s d : Node) : Prop :=
  Type_ s = Some GOUT \/ Type_ d = Some GIN \/ exactly_one_DC s d.

(** The identity key of an edge as an ordered pair of names. *)
Definition key_pair (e : Edge) : string * string :=
  (Name (Source e), Name (Dest e)).

(** The reciprocity rate as the specification words it: [K] is the set of
    distinct keys, the numerator counts the edges whose reverse key is in
    [K], and the percentage is taken in binary64 with the scaling by 100
    applied to the numerator. *)
Definition key_set (edges : list Edge) : gset string :=
  list_to_set (getKey <$> edges).

Definition reciprocated (edges : list Edge) : list Edge :=
  filter (fun e => InterstingStats.reciprocalKey e ∈ key_set edges) edges.

Definition reciprocity_rate (edges : list Edge) : F64.float :=
  F64.div
    (F64.mul (F64.of_Z (Z.of_nat (length (reciprocated edges)))) (F64.of_Z 100))
    (F64.of_Z (Z.of_nat (size (key_set edges)))).

(** ** Tapes used in the examples *)

(** A linear congruential tape. *)
Definition lcg_tape (t : nat) : Z :=
  (((Z.of_nat t + 7) * 6364136223846793005 + 1442695040888963407)
     mod 2 ^ 64 / 2 ^ 11)%Z.

(** The tape 0, 1, 2, ... *)
Definition counting_tape (t : nat) : Z := Z.of_nat t.



(** Two sampler states that differ at most in their edge list. *)
Definition same_config (s s' : EdgeSampler) : Prop :=
  sampled_nodes s' = sampled_nodes s
  /\ num_edges s' = num_edges s
  /\ reciprocity s' = reciprocity s
  /\ verbose s' = verbose s.

(** An edge made by the constructor from the nodes at two different
    positions of a node list. *)
Definition linked (nodes : list Node) (e : Edge) : Prop :=
  exists i j a b,
    i <> j /\ nodes !! i = Some a /\ nodes !! j = Some b
    /\ Edge_init a b = Ret e.

(** The reciprocal pool of the sampling loop holds flagged, linked edges
    only. *)
Definition pool_ok (nodes : list Node) (reciproc : list Edge) : Prop :=
  Forall (fun e => linked nodes e /\ Reciproc e = true) reciproc.

(** The number of nodes of a list that have the type [ty], and the share of
    a type in percent, in binary64. *)
Definition occurrences (ty : option NodeType) (samples : list Node) : nat :=
  length (filter (fun n => getType n = ty) samples).

Definition share (samples : list Node) (ty : NodeType) : F64.float :=
  F64.div
    (F64.mul (F64.of_Z (Z.of_nat (occurrences (Some ty) samples)))
       (F64.of_Z 100))
    (F64.of_Z (Z.of_nat (length samples))).

(** A string without the character [-]. *)
Definition dash_free (s : string) : Prop :=
  forall i, String.get i s <> Some "-"%char.

(** What the dictionary of [getNodeTypeDistribution] holds after its first
    loop has read the nodes [l]. *)
Definition tallied (d : InterstingStats.ntdic_t) (l : list Node) : Prop :=
  NoDup d.*1
  /\ (forall k, k ∈ d.*1 <-> k ∈ getType <$> l)
  /\ (forall k c, (k, c) ∈ d -> c = Z.of_nat (occurrences k l)).

(** ** Samplers used in the examples *)

(** A GIN node and two GSCC nodes, with a target of four edges. *)
Definition small_sampler : EdgeSampler :=
  {| sampled_nodes := [ {| Name := "0"; Type_ := Some GIN |};
                        {| Name := "1"; Type_ := Some GSCC |};
                        {| Name := "2"; Type_ := Some GSCC |} ];
     num_edges := 4;
     reciprocity := F64.dec 15 100;
     edges := [];
     verbose := false |}.

(** ** The reciprocity rate on the names of the endpoints

    The statistic as the claim words it, written on the names of the
    endpoints alone. *)

(** The pair of names of the reverse edge. *)
Definition reverse_pair (e : Edge) : string * string :=
  (Name (Dest e), Name (Source e)).

(** A pair of names written with an arrow: source name, ["->"],
    destination name. *)
Definition arrow (p : string * string) : string := p.1 ++ "->" ++ p.2.

(** [K] as a set of written keys, and the rate counted on it: the edges
    whose reverse key, destination name [->] source name, is in [K], times
    100, divided by the size of [K]. *)
Definition distinct_keys (edges : list Edge) : gset string :=
  list_to_set ((fun e => arrow (key_pair e)) <$> edges).

Definition directed_rate (edges : list Edge) : F64.float :=
  F64.div
    (F64.mul
       (F64.of_Z
          (Z.of_nat
             (length
                (filter (fun e => arrow (reverse_pair e) ∈ distinct_keys edges)
                   edges))))
       (F64.of_Z 100))
    (F64.of_Z (Z.of_nat (size (distinct_keys edges)))).

(** [K] as a set of ordered pairs of names, and the rate counted on it. *)
Definition distinct_pairs (edges : list Edge) : gset (string * string) :=
  list_to_set (key_pair <$> edges).

Definition pair_rate (edges : list Edge) : F64.float :=
  F64.div
    (F64.mul
       (F64.of_Z
          (Z.of_nat
             (length
                (filter (fun e => reverse_pair e ∈ distinct_pairs edges) edges))))
       (F64.of_Z 100))
    (F64.of_Z (Z.of_nat (size (distinct_pairs edges)))).

(** Edges between nodes whose names have no dash, as the names given by
    the sampler. *)
Definition plain_names (edges : list Edge) : Prop :=
  forall e, e ∈ edges ->
    dash_free (Name (Source e)) /\ dash_free (Name (Dest e)).

(** * Properties *)

(** ** Binary64 facts *)

Section Binary64.

Local Open Scope Z_scope.

Lemma ltb_leb (a b : F64.float) : F64.ltb a b = true -> F64.leb a b = true.
Proof.
  unfold F64.ltb, F64.leb, SFltb, SFleb.
  destruct (SFcompare a b) as [[]|]; congruence.
Qed.

Lemma digits2_pos_iter_xO (p d : positive) :
  Z.pos (digits2_pos (Pos.iter xO p d)) = Z.pos (digits2_pos p) + Z.pos d.
Proof.
  revert p. induction d as [|d IH] using Pos.peano_ind; intros p.
  - simpl. lia.
  - rewrite Pos.iter_succ. simpl. rewrite Pos2Z.inj_succ, IH. lia.
Qed.

Lemma digits2_pos_bound (p : positive) (k : Z) :
  0 <= k -> Z.pos p < 2 ^ k -> Z.pos (digits2_pos p) <= k.
Proof.
  revert k. induction p as [p IH|p IH|]; intros k Hk Hp; simpl.
  - assert (k <> 0) by (intros ->; simpl in Hp; lia).
    rewrite Pos2Z.inj_succ.
    specialize (IH (k - 1)).
    replace (2 ^ k) with (2 * 2 ^ (k - 1)) in Hp
      by (rewrite <- Z.pow_succ_r by lia; f_equal; lia).
    lia.
  - assert (k <> 0) by (intros ->; simpl in Hp; lia).
    rewrite Pos2Z.inj_succ.
    specialize (IH (k - 1)).
    replace (2 ^ k) with (2 * 2 ^ (k - 1)) in Hp
      by (rewrite <- Z.pow_succ_r by lia; f_equal; lia).
    lia.
  - destruct (Z.eq_dec k 0) as [->|]; [simpl in Hp; lia | lia].
Qed.

(** A mantissa of at most 53 bits is only shifted into place: nothing is
    rounded away and the sign is kept. *)
Lemma binary_round_exact (s : bool) (p : positive) (e : Z) :
  Z.pos (digits2_pos p) <= 53 ->
  -1074 <= e - (53 - Z.pos (digits2_pos p)) <= 971 ->
  exists m, binary_round F64.prec F64.emax s p e
            = S754_finite s m (e - (53 - Z.pos (digits2_pos p))).
Proof.
  intros Hd He.
  unfold binary_round, F64.prec, F64.emax.
  set (d := 53 - Z.pos (digits2_pos p)) in *.
  assert (Hf : fexp 53 1024 (Z.pos (digits2_pos p) + e) = e - d)
    by (unfold fexp, emin; lia).
  rewrite Hf.
  assert (Hal : exists mz, shl_align p e (e - d) = (mz, e - d)
                           /\ Z.pos (digits2_pos mz) = 53).
  { unfold shl_align. destruct (e - d - e) eqn:E; try lia.
    - exists p. split; [f_equal; lia | lia].
    - eexists. split; [reflexivity|]. rewrite digits2_pos_iter_xO. lia. }
  destruct Hal as (mz & -> & Hmz).
  exists mz.
  unfold binary_round_aux, shr_fexp.
  cbn [Zdigits2 shr_record_of_loc].
  rewrite Hmz.
  assert (Hf2 : fexp 53 1024 (53 + (e - d)) - (e - d) = 0)
    by (unfold fexp, emin; lia).
  rewrite Hf2.
  cbn [shr shr_m loc_of_shr_record round_nearest_even Zdigits2
       shr_record_of_loc].
  rewrite Hmz, Hf2. cbn [shr shr_m].
  destruct (Z.leb_spec (e - d) (1024 - 53)); [reflexivity | lia].
Qed.

(** Integers below 2^53 in magnitude convert without overflow. *)
Lemma float_of_int_small (n : Z) :
  Z.abs n < 2 ^ 53 -> float_of_int n = Ret (F64.of_Z n).
Proof.
  intros Hn. unfold float_of_int, F64.of_Z, binary_normalize.
  destruct n as [|p|p]; [reflexivity| |].
  - destruct (binary_round_exact false p 0) as [m ->]; [| |reflexivity].
    + apply digits2_pos_bound; lia.
    + assert (Z.pos (digits2_pos p) <= 53) by (apply digits2_pos_bound; lia).
      lia.
  - destruct (binary_round_exact true p 0) as [m ->]; [| |reflexivity].
    + apply digits2_pos_bound; lia.
    + assert (Z.pos (digits2_pos p) <= 53) by (apply digits2_pos_bound; lia).
      lia.
Qed.

(** A raw draw scaled by 2^-53 lies in [0, 1). *)
Lemma unit_interval (k : Z) :
  let r := binary_normalize F64.prec F64.emax (k mod 2 ^ 53) (-53) false in
  F64.leb F64.zero r = true /\ F64.ltb r F64.one = true.
Proof.
  intros r. subst r.
  assert (Hk : 0 <= k mod 2 ^ 53 < 2 ^ 53) by (apply Z.mod_pos_bound; lia).
  unfold binary_normalize.
  destruct (k mod 2 ^ 53) as [|p|p] eqn:E; [split; reflexivity| |lia].
  assert (Hd : Z.pos (digits2_pos p) <= 53) by (apply digits2_pos_bound; lia).
  destruct (binary_round_exact false p (-53)) as [m ->]; [lia|lia|].
  split; [reflexivity|].
  assert (H1 : F64.one = S754_finite false 4503599627370496 (-52))
    by reflexivity.
  rewrite H1. unfold F64.ltb, SFltb, SFcompare.
  destruct (Z.compare_spec (-53 - (53 - Z.pos (digits2_pos p))) (-52));
    [lia | reflexivity | lia].
Qed.






End Binary64.

(** ** The type sampler *)

Section TypeSampler.

Import NodeSampler.

(** The scan answers as soon as the draw is below the total of the
    table. *)
Lemma scan_reaches (table : list (NodeType * F64.float))
    (rtotal rvar : F64.float) :
  table <> [] ->
  F64.leb rvar (fold_left F64.add (snd <$> table) rtotal) = true ->
  exists k, scan table rtotal rvar = Some k.
Proof.
  revert rtotal. induction table as [|[k w] rest IH]; intros rtotal Hne Hle.
  - congruence.
  - simpl in *. destruct (F64.leb rvar (F64.add rtotal w)) eqn:E.
    + eauto.
    + destruct rest as [|kw rest'].
      * simpl in Hle. congruence.
      * apply IH; [discriminate | exact Hle].
Qed.

(** In binary64 the four weights add up to exactly 1. *)
Lemma samplingrate_total :
  fold_left F64.add (snd <$> samplingrate) F64.zero = F64.one.
Proof. vm_compute. reflexivity. Qed.

(** The scan has no fallback of its own: these weights add up to 1 as
    decimals but to 1 - 2^-52 in binary64, and the scan falls off the end
    of the table for the largest draw below 1. *)
Example scan_falls_off :
  let table := [(GSCC, F64.dec 6 100); (GOUT, F64.dec 57 100);
                (GIN, F64.dec 8 100); (DC, F64.dec 29 100)] in
  let r := binary_normalize F64.prec F64.emax (2 ^ 53 - 1) (-53) false in
  F64.ltb r F64.one = true
  /\ scan table F64.zero r = None
  /\ sample_with_fallback table r = Some DC.
Proof. vm_compute. repeat split. Qed.

(** C2: for every draw [r] with [0 <= r < 1] the scan over the configured
    weights returns a node type, never nothing; it agrees with the sampler
    that falls back to the last type, whose fallback is never needed because
    the running total reaches 1. *)
Theorem sampleNode_returns_type (r : F64.float) :
  F64.leb F64.zero r = true ->
  F64.ltb r F64.one = true ->
  (exists k, sampleNode r = Some k)
  /\ sampleNode r = sample_with_fallback samplingrate r.
Proof.
  intros _ Hlt.
  destruct (scan_reaches samplingrate F64.zero r) as [k Hk].
  - discriminate.
  - rewrite samplingrate_total. apply ltb_leb, Hlt.
  - unfold sampleNode, sample_with_fallback. rewrite Hk. eauto.
Qed.

Lemma sampleNode_returns_type_witness :
  (exists k, sampleNode (F64.dec 1 2) = Some k)
  /\ sampleNode (F64.dec 1 2) = sample_with_fallback samplingrate (F64.dec 1 2).
Proof. apply sampleNode_returns_type; reflexivity. Defined.

End TypeSampler.

(** ** Edge construction *)

Section EdgeConstruction.

Lemma has_type_true (n : Node) (t : NodeType) :
  has_type n t = true <-> Type_ n = Some t.
Proof. unfold has_type. apply bool_decide_eq_true. Qed.

Lemma has_type_false (n : Node) (t : NodeType) :
  has_type n t = false <-> Type_ n <> Some t.
Proof. unfold has_type. apply bool_decide_eq_false. Qed.

(** The outcome of the constructor, case by case. *)
Lemma Edge_init_cases (s d : Node) :
  (violates s d /\ is_TypeError (Edge_init s d))
  \/ (valid_pair s d
      /\ Edge_init s d
         = Ret {| Source := s; Dest := d;
                  Reciproc := has_type s GSCC && has_type d GSCC |}).
Proof.
  unfold Edge_init, violates, exactly_one_DC, valid_pair, rule_source,
    rule_dest, rule_dc, is_TypeError.
  unfold has_type. repeat case_bool_decide; simpl;
    first [ left; split; [tauto | eexists; reflexivity]
          | right; split; [tauto | reflexivity] ].
Qed.

Lemma violates_not_valid (s d : Node) : violates s d -> ~ valid_pair s d.
Proof.
  unfold violates, exactly_one_DC, valid_pair, rule_source, rule_dest,
    rule_dc. tauto.
Qed.

(** C3: constructing an edge fails with a constraint violation exactly
    when a validity rule is violated (GOUT source, GIN destination, or
    exactly one DC endpoint); when the three rules hold it succeeds and the
    edge has the given endpoints. *)
Theorem Edge_init_raises_iff (s d : Node) :
  (is_TypeError (Edge_init s d) <-> violates s d)
  /\ (valid_pair s d ->
      exists e, Edge_init s d = Ret e /\ Source e = s /\ Dest e = d).
Proof.
  destruct (Edge_init_cases s d) as [[Hv Hr]|[Hv Hr]].
  - split; [tauto|]. intros Hok. destruct (violates_not_valid _ _ Hv Hok).
  - split.
    + split.
      * intros [msg Hm]. congruence.
      * intros Hb. destruct (violates_not_valid _ _ Hb Hv).
    + intros _. eexists. split; [exact Hr|]. split; reflexivity.
Qed.

Lemma Edge_init_raises_iff_witness :
  let s := {| Name := "0"; Type_ := Some GIN |} in
  let d := {| Name := "1"; Type_ := Some GSCC |} in
  exists e, Edge_init s d = Ret e /\ Source e = s /\ Dest e = d.
Proof.
  intros s d. apply (proj2 (Edge_init_raises_iff s d)).
  unfold valid_pair, rule_source, rule_dest, rule_dc. simpl.
  split; [discriminate|]. split; [discriminate|].
  split; discriminate.
Defined.

(** The concrete scenario of the specification: a GSCC node never links
    to a DC node. *)
Example GSCC_to_DC_rejected :
  Edge_init {| Name := "2"; Type_ := Some GSCC |}
            {| Name := "0"; Type_ := Some DC |}
  = Raise (TypeError "Disconnected Component constraint").
Proof. reflexivity. Qed.

(** C4: on every constructed edge the reciprocity flag is set exactly
    when both endpoints have type GSCC. *)
Theorem Reciproc_iff_GSCC (s d : Node) (e : Edge) :
  Edge_init s d = Ret e ->
  (Reciproc e = true
   <-> Type_ (Source e) = Some GSCC /\ Type_ (Dest e) = Some GSCC).
Proof.
  intros He.
  destruct (Edge_init_cases s d) as [[_ [msg Hr]]|[_ Hr]]; [congruence|].
  rewrite Hr in He. injection He as <-. simpl.
  rewrite andb_true_iff, !has_type_true. reflexivity.
Qed.

Lemma Reciproc_iff_GSCC_witness :
  let s := {| Name := "0"; Type_ := Some GSCC |} in
  let d := {| Name := "1"; Type_ := Some GSCC |} in
  let e := {| Source := s; Dest := d; Reciproc := true |} in
  Reciproc e = true
  <-> Type_ (Source e) = Some GSCC /\ Type_ (Dest e) = Some GSCC.
Proof. intros s d e. apply (Reciproc_iff_GSCC s d e). reflexivity. Defined.

(** C5: the reciprocal of a constructed edge whose flag is set can always
    be constructed: it runs from the destination to the source and is
    reciprocity-eligible too. *)
Theorem constructReciproc_succeeds (s d : Node) (e : Edge) :
  Edge_init s d = Ret e ->
  Reciproc e = true ->
  exists e', constructReciproc e = Ret e'
             /\ Source e' = Dest e /\ Dest e' = Source e
             /\ Reciproc e' = true.
Proof.
  intros He Hr.
  apply (Reciproc_iff_GSCC s d e He) in Hr as [Hs Hd].
  unfold constructReciproc, Edge_init, has_type.
  rewrite Hs, Hd. simpl. eexists. repeat split.
Qed.

Lemma constructReciproc_succeeds_witness :
  let s := {| Name := "0"; Type_ := Some GSCC |} in
  let d := {| Name := "1"; Type_ := Some GSCC |} in
  let e := {| Source := s; Dest := d; Reciproc := true |} in
  exists e', constructReciproc e = Ret e'
             /\ Source e' = Dest e /\ Dest e' = Source e
             /\ Reciproc e' = true.
Proof.
  intros s d e. apply (constructReciproc_succeeds s d e); reflexivity.
Defined.

End EdgeConstruction.

(** ** The sampling loop *)

Section Loop.

Variable tape : nat -> Z.

Lemma bind_Ret {A B} (m : Rand A) (f : A -> Rand B) (t t' : nat) (b : B) :
  bind m f t = Ret (b, t') ->
  exists a t1, m t = Ret (a, t1) /\ f a t1 = Ret (b, t').
Proof.
  unfold bind. destruct (m t) as [[a t1]|e|]; [eauto|discriminate..].
Qed.

Lemma lift_Ret {A} (r : result A) (t t' : nat) (a : A) :
  lift r t = Ret (a, t') -> r = Ret a /\ t' = t.
Proof. unfold lift. destruct r; intros H; inversion H; auto. Qed.

Lemma same_config_refl (s : EdgeSampler) : same_config s s.
Proof. repeat split. Qed.

Lemma same_config_append (s s' : EdgeSampler) (e : Edge) :
  same_config (append_edge s e) s' -> same_config s s'.
Proof. unfold same_config. simpl. tauto. Qed.

(** What a returning run of the loop has done: it has appended a list
    [new] of edges whose keys are pairwise distinct and were not in
    [seen], one for every unit the counter was short of the target. *)
Lemma sampleEdges_loop_spec (fuel : nat) :
  forall (self : EdgeSampler) (num_edge : Z) (seen : gset string)
         (reciproc : list Edge) (t : nat) (self' : EdgeSampler) (t' : nat),
    sampleEdges_loop tape fuel self num_edge seen reciproc t
    = Ret (self', t') ->
    same_config self self'
    /\ exists new,
         edges self' = (edges self ++ new)%list
         /\ NoDup (getKey <$> new)
         /\ (forall e, e ∈ new -> getKey e ∉ seen)
         /\ Z.of_nat (length new) = Z.max 0 (num_edges self - num_edge).
Proof.
  induction fuel as [|fuel IH]; intros self n seen reciproc t self' t' H;
    simpl in H; destruct (Z.ltb_spec n (num_edges self)) as [Hlt|Hge];
    simpl in H; try discriminate.
  - injection H as <- <-. split; [apply same_config_refl|].
    exists []. rewrite app_nil_r. simpl.
    repeat split; [constructor | intros e He; inversion He | lia].
  - apply bind_Ret in H as (edge & t1 & _ & H).
    destruct (bool_decide (getKey edge ∈ seen)) eqn:Hseen; simpl in H.
    + apply IH in H. exact H.
    + apply bool_decide_eq_false in Hseen.
      apply IH in H as (Hcfg & new & Hedges & Hnd & Hfresh & Hlen).
      split; [eapply same_config_append; eauto|].
      exists (edge :: new). simpl in Hedges, Hlen.
      rewrite Hedges, <- app_assoc. simpl.
      repeat split.
      * constructor; [|exact Hnd].
        intros Hin. apply list_elem_of_fmap in Hin as (e & Heq & He).
        apply (Hfresh e He). rewrite <- Heq.
        apply elem_of_union_l, elem_of_singleton. reflexivity.
      * intros e He. apply elem_of_cons in He as [->|He]; [exact Hseen|].
        intros Hin. apply (Hfresh e He), elem_of_union_r, Hin.
      * lia.
  - injection H as <- <-. split; [apply same_config_refl|].
    exists []. rewrite app_nil_r. simpl.
    repeat split; [constructor | intros e He; inversion He | lia].
Qed.

(** With a target that is already met (zero or negative) the loop body is
    never entered, whatever the fuel. *)
Lemma sampleEdges_satisfied (fuel : nat) (self : EdgeSampler) (t : nat) :
  (num_edges self <= 0)%Z ->
  sampleEdges tape fuel self t = Ret (edges self, self, t).
Proof.
  intros Hn. unfold sampleEdges, bind.
  destruct fuel; simpl;
    destruct (Z.ltb_spec 0 (num_edges self)); try lia; reflexivity.
Qed.

Lemma sampleEdges_spec (fuel : nat) (self : EdgeSampler) (t : nat)
    (es : list Edge) (self' : EdgeSampler) (t' : nat) :
  sampleEdges tape fuel self t = Ret (es, self', t') ->
  es = edges self'
  /\ same_config self self'
  /\ exists new,
       es = (edges self ++ new)%list
       /\ NoDup (getKey <$> new)
       /\ Z.of_nat (length new) = Z.max 0 (num_edges self).
Proof.
  unfold sampleEdges. intros H.
  apply bind_Ret in H as (s1 & t1 & Hloop & H).
  injection H as <- <- <-.
  apply sampleEdges_loop_spec in Hloop as (Hcfg & new & He & Hnd & _ & Hlen).
  split; [reflexivity|]. split; [exact Hcfg|].
  exists new. rewrite Z.sub_0_r in Hlen. auto.
Qed.

(** Creating the nodes never fails; it reads one draw per node. *)
Lemma mapM_Node_init (names : list Z) (t : nat) :
  exists nodes,
    mapM (fun x => Node_init tape (format_int x)) names t
    = Ret (nodes, (t + length names)%nat)
    /\ length nodes = length names.
Proof.
  revert t. induction names as [|x names IH]; intros t.
  - exists []. simpl. unfold ret. rewrite Nat.add_0_r. auto.
  - destruct (IH (S t)) as (nodes & Hn & Hl).
    eexists (_ :: nodes). simpl. unfold bind at 1. simpl.
    unfold bind at 1. rewrite Hn. unfold ret. simpl.
    split; [repeat f_equal; lia | congruence].
Qed.

(** The constructor returns exactly when the target can be computed. *)
Lemma EdgeSampler_init_Ret (n : Z) (c r : F64.float) (v : bool) (t : nat)
    (k : Z) :
  target_edges c n = Ret k ->
  exists nodes,
    EdgeSampler_init tape n c r v t
    = Ret ({| sampled_nodes := nodes; num_edges := k; reciprocity := r;
              edges := []; verbose := v |}, (t + Z.to_nat n)%nat)
    /\ length nodes = Z.to_nat n.
Proof.
  intros Hk. unfold EdgeSampler_init.
  destruct (mapM_Node_init (range n) t) as (nodes & Hn & Hl).
  unfold range in *. rewrite length_seqZ in Hn, Hl.
  exists nodes. unfold bind at 1. rewrite Hn.
  unfold bind, lift. rewrite Hk. auto.
Qed.

Lemma EdgeSampler_init_inv (n : Z) (c r : F64.float) (v : bool) (t : nat)
    (s : EdgeSampler) (t' : nat) :
  EdgeSampler_init tape n c r v t = Ret (s, t') ->
  target_edges c n = Ret (num_edges s)
  /\ edges s = [] /\ reciprocity s = r /\ verbose s = v
  /\ length (sampled_nodes s) = Z.to_nat n.
Proof.
  intros H. unfold EdgeSampler_init in H.
  apply bind_Ret in H as (nodes & t1 & Hn & H).
  apply bind_Ret in H as (k & t2 & Hk & H).
  apply lift_Ret in Hk as [Hk ->].
  injection H as <- <-. simpl.
  destruct (mapM_Node_init (range n) t) as (nodes' & Hn' & Hl).
  rewrite Hn' in Hn. injection Hn as <- <-.
  unfold range in Hl. rewrite length_seqZ in Hl. auto.
Qed.

End Loop.

(** ** Repeated calls and uniqueness of keys *)

Section Calls.

Lemma getKey_key_pair (es : list Edge) :
  getKey <$> es
  = (fun p : string * string => p.1 ++ "->" ++ p.2) <$> (key_pair <$> es).
Proof. rewrite <- list_fmap_compose. reflexivity. Qed.

(** C1 (as amended): a call of [sampleEdges] that returns hands back the
    list held by the instance, which is the list it held before the call
    followed by [max 0 num_edges] new edges; the configuration is
    untouched.  The list comes back unchanged, and no draw is read, when
    the target is zero or negative; a target that was met by an earlier
    call does not stop a later call from sampling again. *)
Theorem sampleEdges_accumulates (tape : nat -> Z) (fuel : nat)
    (self : EdgeSampler) (t : nat) (es : list Edge) (self' : EdgeSampler)
    (t' : nat) :
  sampleEdges tape fuel self t = Ret (es, self', t') ->
  es = edges self'
  /\ same_config self self'
  /\ (exists new,
        es = (edges self ++ new)%list
        /\ Z.of_nat (length new) = Z.max 0 (num_edges self))
  /\ ((num_edges self <= 0)%Z -> es = edges self /\ t' = t).
Proof.
  intros H. pose proof (sampleEdges_spec _ _ _ _ _ _ _ H)
    as (Hes & Hcfg & new & Hnew & _ & Hlen).
  split; [exact Hes|]. split; [exact Hcfg|]. split; [eauto|].
  intros Hn. rewrite (sampleEdges_satisfied tape fuel self t Hn) in H.
  injection H as <- _ <-. auto.
Qed.

(** C6 (as amended): the list returned by a call of [sampleEdges] on a
    sampler whose edge list was empty holds no two edges with the same
    key, neither as formatted strings nor as pairs of names. *)
Theorem sampleEdges_unique_keys (tape : nat -> Z) (fuel : nat)
    (self : EdgeSampler) (t : nat) (es : list Edge) (self' : EdgeSampler)
    (t' : nat) :
  edges self = [] ->
  sampleEdges tape fuel self t = Ret (es, self', t') ->
  NoDup (getKey <$> es) /\ NoDup (key_pair <$> es).
Proof.
  intros Hnil H.
  apply sampleEdges_spec in H as (_ & _ & new & -> & Hnd & _).
  rewrite Hnil. simpl.
  split; [exact Hnd|].
  rewrite getKey_key_pair in Hnd. apply NoDup_fmap_1 in Hnd. exact Hnd.
Qed.

End Calls.

(** ** Samplers without a valid pair *)

Section NoValidPair.

Variable tape : nat -> Z.




End NoValidPair.

(** ** The constructor *)

Section Constructor.



Lemma int_of_float_Ret (p : F64.float) (k : Z) :
  int_of_float p = Ret k <-> F64.is_finite p = true /\ k = F64.trunc p.
Proof.
  destruct p; simpl; split;
    first [ intros [? ->]; congruence | intros H; inversion H; auto ].
Qed.

Lemma target_edges_Ret (c : F64.float) (n k : Z) :
  target_edges c n = Ret k <->
  exists p, edge_budget c n = Ret p
            /\ F64.is_finite p = true /\ k = F64.trunc p.
Proof.
  unfold target_edges. destruct (edge_budget c n) as [p|e|].
  - rewrite int_of_float_Ret. split.
    + intros H. eauto.
    + intros (p' & Hp & H). injection Hp as <-. exact H.
  - split; [discriminate | intros (p & Hp & _); discriminate].
  - split; [discriminate | intros (p & Hp & _); discriminate].
Qed.




(** On the linear congruential tape the call does return, after 108
    draws. *)
Example lcg_run_returns :
  exists s t es s' t',
    EdgeSampler_init lcg_tape 10 (F64.dec 3 10) (F64.dec 15 100) false 0
    = Ret (s, t)
    /\ sampleEdges lcg_tape 60 s t = Ret (es, s', t')
    /\ length es = 27%nat /\ t' = 108%nat.
Proof.
  destruct (EdgeSampler_init lcg_tape 10 (F64.dec 3 10) (F64.dec 15 100)
              false 0) as [[s t]|e|] eqn:E;
    [|vm_compute in E; discriminate..].
  exists s, t.
  destruct (sampleEdges lcg_tape 60 s t) as [[[es s'] t']|e|] eqn:E';
    vm_compute in E; injection E as <- <-;
    vm_compute in E'; try discriminate.
  exists es, s', t'. split; [reflexivity|]. split; [reflexivity|].
  injection E' as <- _ <-. split; reflexivity.
Qed.



(** C8 (as amended): the constructor checks none of its parameters.  It
    returns exactly when the binary64 product
    [connectivity * node_count * (node_count - 1)] is finite, and then it
    stores the truncated product, the reciprocity as given, an empty edge
    list and [max 0 node_count] nodes. *)
Theorem EdgeSampler_init_unvalidated (tape : nat -> Z) (n : Z)
    (c r : F64.float) (v : bool) (t : nat) :
  (forall p, edge_budget c n = Ret p -> F64.is_finite p = true ->
     exists nodes,
       EdgeSampler_init tape n c r v t
       = Ret ({| sampled_nodes := nodes; num_edges := F64.trunc p;
                 reciprocity := r; edges := []; verbose := v |},
              (t + Z.to_nat n)%nat)
       /\ length nodes = Z.to_nat n)
  /\ (forall s t', EdgeSampler_init tape n c r v t = Ret (s, t') ->
        exists p, edge_budget c n = Ret p /\ F64.is_finite p = true).
Proof.
  split.
  - intros p Hp Hfin. apply EdgeSampler_init_Ret.
    apply target_edges_Ret. eauto.
  - intros s t' H. apply EdgeSampler_init_inv in H as (H & _).
    apply target_edges_Ret in H as (p & Hp & Hfin & _). eauto.
Qed.

Lemma EdgeSampler_init_unvalidated_witness :
  exists nodes,
    EdgeSampler_init counting_tape 1 (F64.dec 15 10) (F64.dec (-5) 10) false 0
    = Ret ({| sampled_nodes := nodes; num_edges := 0;
              reciprocity := F64.dec (-5) 10; edges := []; verbose := false |},
           1%nat)
    /\ length nodes = 1%nat.
Proof.
  apply (proj1 (EdgeSampler_init_unvalidated counting_tape 1 (F64.dec 15 10)
                  (F64.dec (-5) 10) false 0) (S754_zero false));
    reflexivity.
Defined.

(** C8, as stated, fails: one node, density 1.5 and reciprocity -0.5 are
    accepted. *)
Lemma EdgeSampler_init_accepts_bad_parameters :
  (1 < 2)%Z
  /\ F64.ltb F64.one (F64.dec 15 10) = true
  /\ F64.ltb (F64.dec (-5) 10) F64.zero = true
  /\ exists s t',
       EdgeSampler_init counting_tape 1 (F64.dec 15 10) (F64.dec (-5) 10)
         false 0 = Ret (s, t').
Proof.
  split; [lia|]. split; [reflexivity|]. split; [reflexivity|].
  eexists _, _. vm_compute. reflexivity.
Qed.

End Constructor.

(** ** Calling [sampleEdges] twice *)

Section SecondCall.

(** Two GSCC nodes, density 1, reciprocity 0, on the counting tape. *)
Lemma two_calls :
  exists s0 t0 es1 s1 t1 es2 s2 t2,
    EdgeSampler_init counting_tape 2 (F64.dec 10 10) F64.zero false 0
    = Ret (s0, t0)
    /\ sampleEdges counting_tape 10 s0 t0 = Ret (es1, s1, t1)
    /\ sampleEdges counting_tape 10 s1 t1 = Ret (es2, s2, t2)
    /\ num_edges s1 = 2%Z
    /\ getKey <$> es1 = ["1->0"; "0->1"]
    /\ getKey <$> es2 = ["1->0"; "0->1"; "1->0"; "0->1"]
    /\ t1 = 8%nat /\ t2 = 14%nat.
Proof.
  destruct (EdgeSampler_init counting_tape 2 (F64.dec 10 10) F64.zero false 0)
    as [[s0 t0]|e|] eqn:E0; [|vm_compute in E0; discriminate..].
  exists s0, t0.
  destruct (sampleEdges counting_tape 10 s0 t0)
    as [[[es1 s1] t1]|e|] eqn:E1;
    vm_compute in E0; injection E0 as <- <-;
    vm_compute in E1; try discriminate.
  exists es1, s1, t1.
  destruct (sampleEdges counting_tape 10 s1 t1)
    as [[[es2 s2] t2]|e|] eqn:E2;
    injection E1 as <- <- <-;
    vm_compute in E2; try discriminate.
  exists es2, s2, t2.
  split; [reflexivity|]. split; [reflexivity|]. split; [reflexivity|].
  injection E2 as <- _ <-. repeat split.
Qed.

(** C1, as stated, fails: after a first call that met the target of 2, a
    second call reads six more draws and returns four edges. *)
Lemma sampleEdges_not_idempotent :
  exists s0 t0 es1 s1 t1 es2 s2 t2,
    EdgeSampler_init counting_tape 2 (F64.dec 10 10) F64.zero false 0
    = Ret (s0, t0)
    /\ sampleEdges counting_tape 10 s0 t0 = Ret (es1, s1, t1)
    /\ Z.of_nat (length es1) = num_edges s1
    /\ sampleEdges counting_tape 10 s1 t1 = Ret (es2, s2, t2)
    /\ es2 <> es1 /\ length es2 = 4%nat /\ t2 <> t1.
Proof.
  destruct two_calls
    as (s0 & t0 & es1 & s1 & t1 & es2 & s2 & t2
        & H0 & H1 & H2 & Hn & Hk1 & Hk2 & Ht1 & Ht2).
  exists s0, t0, es1, s1, t1, es2, s2, t2.
  assert (Hl1 : length es1 = 2%nat)
    by (rewrite <- (length_fmap getKey), Hk1; reflexivity).
  assert (Hl2 : length es2 = 4%nat)
    by (rewrite <- (length_fmap getKey), Hk2; reflexivity).
  repeat split; try assumption.
  - rewrite Hl1, Hn. reflexivity.
  - intros Heq. rewrite Heq in Hl2. congruence.
  - lia.
Qed.

(** C6, as stated, fails: the list returned by the second call holds each
    key twice. *)
Lemma sampleEdges_second_call_repeats_keys :
  exists s0 t0 es1 s1 t1 es2 s2 t2,
    EdgeSampler_init counting_tape 2 (F64.dec 10 10) F64.zero false 0
    = Ret (s0, t0)
    /\ sampleEdges counting_tape 10 s0 t0 = Ret (es1, s1, t1)
    /\ sampleEdges counting_tape 10 s1 t1 = Ret (es2, s2, t2)
    /\ ~ NoDup (getKey <$> es2).
Proof.
  destruct two_calls
    as (s0 & t0 & es1 & s1 & t1 & es2 & s2 & t2
        & H0 & H1 & H2 & Hn & Hk1 & Hk2 & Ht1 & Ht2).
  exists s0, t0, es1, s1, t1, es2, s2, t2.
  repeat split; try assumption.
  rewrite Hk2. intros Hnd. apply NoDup_cons in Hnd as [Hnotin _].
  apply Hnotin. apply elem_of_cons. right. apply elem_of_cons. left.
  reflexivity.
Qed.

Lemma sampleEdges_accumulates_witness :
  exists s t es s' t',
    EdgeSampler_init counting_tape 2 (F64.dec 10 10) F64.zero false 0
    = Ret (s, t)
    /\ sampleEdges counting_tape 10 s t = Ret (es, s', t')
    /\ es = edges s'
    /\ same_config s s'
    /\ (exists new,
          es = (edges s ++ new)%list
          /\ Z.of_nat (length new) = Z.max 0 (num_edges s))
    /\ ((num_edges s <= 0)%Z -> es = edges s /\ t' = t).
Proof.
  destruct (EdgeSampler_init counting_tape 2 (F64.dec 10 10) F64.zero false 0)
    as [[s t]|e|] eqn:E0; [|vm_compute in E0; discriminate..].
  exists s, t.
  destruct (sampleEdges counting_tape 10 s t)
    as [[[es s'] t']|e|] eqn:E1.
  - exists es, s', t'. split; [reflexivity|]. split; [reflexivity|].
    exact (sampleEdges_accumulates counting_tape 10 s t es s' t' E1).
  - vm_compute in E0. injection E0 as <- <-. vm_compute in E1. discriminate.
  - vm_compute in E0. injection E0 as <- <-. vm_compute in E1. discriminate.
Defined.

Lemma sampleEdges_unique_keys_witness :
  exists es s' t',
    sampleEdges lcg_tape 60
      {| sampled_nodes := [ {| Name := "0"; Type_ := Some GIN |};
                            {| Name := "1"; Type_ := Some GSCC |};
                            {| Name := "2"; Type_ := Some GSCC |} ];
         num_edges := 4; reciprocity := F64.dec 15 100; edges := [];
         verbose := false |} 0 = Ret (es, s', t')
    /\ NoDup (getKey <$> es) /\ NoDup (key_pair <$> es).
Proof.
  match goal with |- context [sampleEdges ?tp ?f ?s ?t] =>
    destruct (sampleEdges tp f s t) as [[[es s'] t']|e|] eqn:E1 end.
  - exists es, s', t'. split; [reflexivity|].
    eapply sampleEdges_unique_keys; [|exact E1]. reflexivity.
  - vm_compute in E1. discriminate.
  - vm_compute in E1. discriminate.
Defined.

End SecondCall.

(** ** The reciprocity statistic *)

Section Statistics.

Import InterstingStats.

Lemma collect_keys_acc (samples : list Edge) (acc : gset string) :
  fold_left (fun keySet x => {[ getKey x ]} ∪ keySet) samples acc
  = list_to_set (getKey <$> samples) ∪ acc.
Proof.
  revert acc. induction samples as [|x l IH]; intros acc; simpl.
  - apply set_eq. intros k. rewrite elem_of_union, elem_of_empty. tauto.
  - rewrite IH. apply set_eq. intros k.
    rewrite !elem_of_union. tauto.
Qed.

(** The first loop builds the set of distinct keys. *)
Lemma collect_keys_key_set (samples : list Edge) :
  collect_keys samples = key_set samples.
Proof.
  unfold collect_keys, key_set. rewrite collect_keys_acc.
  apply set_eq. intros k. rewrite elem_of_union, elem_of_empty. tauto.
Qed.

Lemma count_reciprocal_acc (K : gset string) (samples : list Edge) (acc : Z) :
  fold_left
    (fun reciprocalEdge x =>
       if bool_decide (reciprocalKey x ∈ K) then (reciprocalEdge + 1)%Z
       else reciprocalEdge)
    samples acc
  = (acc + Z.of_nat (length (filter (fun e => reciprocalKey e ∈ K) samples)))%Z.
Proof.
  revert acc. induction samples as [|x l IH]; intros acc; simpl.
  - lia.
  - rewrite IH. rewrite filter_cons. case_bool_decide as Hx.
    + rewrite decide_True by exact Hx. simpl. lia.
    + rewrite decide_False by exact Hx. reflexivity.
Qed.

(** The second loop counts the edges whose reverse key is in the set. *)
Lemma count_reciprocal_filter (K : gset string) (samples : list Edge) :
  count_reciprocal K samples
  = Z.of_nat (length (filter (fun e => reciprocalKey e ∈ K) samples)).
Proof. unfold count_reciprocal. rewrite count_reciprocal_acc. lia. Qed.

Lemma key_set_size_le (samples : list Edge) :
  (size (key_set samples) <= length samples)%nat.
Proof.
  unfold key_set. induction samples as [|x l IH].
  - rewrite fmap_nil, list_to_set_nil, size_empty. reflexivity.
  - rewrite fmap_cons, list_to_set_cons, size_union_alt, size_singleton.
    rewrite length_cons.
    assert (size (list_to_set (getKey <$> l) ∖ {[getKey x]} : gset string)
            <= size (list_to_set (getKey <$> l) : gset string))%nat
      by (apply subseteq_size, subseteq_difference_l; reflexivity).
    lia.
Qed.

Lemma key_set_size_pos (samples : list Edge) :
  samples <> [] -> size (key_set samples) <> 0%nat.
Proof.
  destruct samples as [|x l]; [congruence|]. intros _.
  apply size_non_empty_iff. intros Hempty.
  assert (Hx : getKey x ∈ key_set (x :: l)).
  { unfold key_set. simpl. apply elem_of_union_l, elem_of_singleton.
    reflexivity. }
  rewrite Hempty in Hx. apply elem_of_empty in Hx. exact Hx.
Qed.

Lemma float_of_int_error (n : Z) (e : exn) :
  float_of_int n = Raise e -> e = OverflowError.
Proof.
  unfold float_of_int. destruct (F64.of_Z n); intros H; inversion H; auto.
Qed.

(** The two loops and the division, put together. *)
Lemma getReciprocityRate_model (samples : list Edge) :
  samples <> [] ->
  (Z.of_nat (length samples) < 2 ^ 53)%Z ->
  getReciprocityRate samples = Ret (reciprocity_rate samples).
Proof.
  intros Hne Hlen. unfold getReciprocityRate, reciprocity_rate, reciprocated.
  rewrite collect_keys_key_set, count_reciprocal_filter.
  pose proof (key_set_size_le samples) as Hsize.
  pose proof (key_set_size_pos samples Hne) as Hpos.
  pose proof (length_filter
                (fun e => reciprocalKey e ∈ key_set samples) samples) as Hcnt.
  rewrite float_of_int_small by lia.
  unfold div_int.
  destruct (Z.eqb_spec (Z.of_nat (size (key_set samples))) 0) as [H0|_];
    [lia|].
  rewrite float_of_int_small by lia.
  reflexivity.
Qed.

(** Two of three directed edges are reciprocated: 66.66...%, not the 50%
    a count over unordered pairs would give. *)
Example two_of_three :
  let n0 := {| Name := "0"; Type_ := Some GSCC |} in
  let n1 := {| Name := "1"; Type_ := Some GSCC |} in
  let n2 := {| Name := "2"; Type_ := Some GOUT |} in
  getReciprocityRate
    [ {| Source := n0; Dest := n1; Reciproc := true |};
      {| Source := n1; Dest := n0; Reciproc := true |};
      {| Source := n0; Dest := n2; Reciproc := false |} ]
  = Ret (F64.div (F64.of_Z 200) (F64.of_Z 3)).
Proof. vm_compute. reflexivity. Qed.

(** C10: the statistic divides by the number of distinct keys, so it
    fails with a division by zero on the empty collection, and only
    there. *)
Theorem getReciprocityRate_empty (samples : list Edge) :
  getReciprocityRate samples = Raise ZeroDivisionError <-> samples = [].
Proof.
  split.
  - intros H. destruct samples as [|x l]; [reflexivity|]. exfalso.
    pose proof (key_set_size_pos (x :: l)) as Hpos.
    unfold getReciprocityRate in H.
    rewrite collect_keys_key_set in H.
    destruct (float_of_int _) as [c|e|] eqn:Ec in H.
    + unfold div_int in H.
      destruct (Z.eqb_spec (Z.of_nat (size (key_set (x :: l)))) 0)
        as [H0|_]; [apply Hpos; [discriminate | lia]|].
      destruct (float_of_int _) as [d|e|] eqn:Ed in H; try discriminate.
      apply float_of_int_error in Ed. congruence.
    + apply float_of_int_error in Ec. congruence.
    + discriminate.
  - intros ->. reflexivity.
Qed.

End Statistics.

(** ** Nodes made by the constructor *)

Section Nodes.

Variable tape : nat -> Z.

Lemma sampleNode_some (r : F64.float) :
  F64.ltb r F64.one = true -> exists ty, NodeSampler.sampleNode r = Some ty.
Proof.
  intros Hlt. apply scan_reaches; [discriminate|].
  rewrite samplingrate_total. apply ltb_leb, Hlt.
Qed.

(** A node is always given a type: the draw is below 1 and the scan over
    the weights reaches 1. *)
Lemma Node_init_typed (name : string) (t : nat) :
  exists ty,
    Node_init tape name t = Ret ({| Name := name; Type_ := Some ty |}, S t).
Proof.
  unfold Node_init, bind, random, ret.
  destruct (unit_interval (tape t)) as [_ Hlt].
  destruct (sampleNode_some _ Hlt) as [ty ->]. eauto.
Qed.

Lemma mapM_Node_init_lookup (names : list Z) :
  forall (t : nat) (nodes : list Node) (t' : nat),
    mapM (fun x => Node_init tape (format_int x)) names t = Ret (nodes, t') ->
    forall i node,
      nodes !! i = Some node ->
      exists x ty,
        names !! i = Some x
        /\ node = {| Name := format_int x; Type_ := Some ty |}.
Proof.
  induction names as [|x names IH]; intros t nodes t' H i node Hi.
  - injection H as <- <-. rewrite lookup_nil in Hi. discriminate.
  - simpl in H. apply bind_Ret in H as (y & t1 & Hy & H).
    apply bind_Ret in H as (ys & t2 & Hys & H).
    injection H as <- <-.
    destruct (Node_init_typed (format_int x) t) as [ty Hty].
    rewrite Hty in Hy. injection Hy as <- <-.
    destruct i as [|i]; simpl in Hi.
    + injection Hi as <-. exists x, ty. auto.
    + apply (IH _ _ _ Hys i node Hi).
Qed.

Lemma to_int_not_nil (z : Z) :
  Z.to_int z <> Decimal.Pos Decimal.Nil /\ Z.to_int z <> Decimal.Neg Decimal.Nil.
Proof.
  destruct z as [|p|p]; simpl; split; try discriminate;
    intros H; injection H as H;
    apply (DecimalPos.Unsigned.to_uint_nonnil p H).
Qed.

(** Decimal formatting maps distinct integers to distinct strings. *)
Lemma format_int_inj (x y : Z) : format_int x = format_int y -> x = y.
Proof.
  unfold format_int. intros H.
  destruct (to_int_not_nil x) as [Hx1 Hx2].
  destruct (to_int_not_nil y) as [Hy1 Hy2].
  apply DecimalZ.to_int_inj.
  pose proof (NilZero.isi _ Hx1 Hx2) as Ex.
  pose proof (NilZero.isi _ Hy1 Hy2) as Ey.
  rewrite H in Ex. congruence.
Qed.

Lemma EdgeSampler_init_nodes_aux (n : Z) (c r : F64.float) (v : bool) (t : nat)
    (s : EdgeSampler) (t' : nat) :
  EdgeSampler_init tape n c r v t = Ret (s, t') ->
  length (getNodes s) = Z.to_nat n
  /\ forall i node,
       getNodes s !! i = Some node ->
       Name node = format_int (Z.of_nat i) /\ exists ty, Type_ node = Some ty.
Proof.
  intros H. pose proof (EdgeSampler_init_inv _ _ _ _ _ _ _ _ H) as (_ & _ & _ & _ & Hl).
  split; [exact Hl|].
  unfold EdgeSampler_init in H.
  apply bind_Ret in H as (nodes & t1 & Hn & H).
  apply bind_Ret in H as (k & t2 & _ & H). injection H as <- <-.
  intros i node Hi. unfold getNodes in Hi. simpl in Hi.
  destruct (mapM_Node_init_lookup _ _ _ _ Hn i node Hi) as (x & ty & Hx & ->).
  unfold range in Hx. apply lookup_seqZ in Hx as [-> _]. simpl.
  split; [reflexivity | eauto].
Qed.

(** X1: the constructor creates [max 0 node_count] nodes; the node at
    position [i] is named by the decimal numeral of [i] and has a type, so
    that [getNodes] never shows an untyped node. *)
Theorem EdgeSampler_init_nodes (n : Z) (c r : F64.float) (v : bool) (t : nat)
    (s : EdgeSampler) (t' : nat) :
  EdgeSampler_init tape n c r v t = Ret (s, t') ->
  length (getNodes s) = Z.to_nat n
  /\ t' = (t + Z.to_nat n)%nat
  /\ forall i node,
       getNodes s !! i = Some node ->
       Name node = format_int (Z.of_nat i) /\ exists ty, Type_ node = Some ty.
Proof.
  intros H. destruct (EdgeSampler_init_nodes_aux _ _ _ _ _ _ _ H) as [Hl Hn].
  split; [exact Hl|]. split; [|exact Hn].
  unfold EdgeSampler_init in H.
  apply bind_Ret in H as (nodes & t1 & Hm & H).
  apply bind_Ret in H as (k & t2 & Hk & H). injection H as <- <-.
  apply lift_Ret in Hk as [_ ->].
  destruct (mapM_Node_init tape (range n) t) as (nodes' & Hm' & _).
  rewrite Hm' in Hm. injection Hm as _ <-.
  unfold range. rewrite length_seqZ. reflexivity.
Qed.

(** X2: the nodes of a constructed sampler have pairwise distinct names. *)
Theorem EdgeSampler_init_names_distinct (n : Z) (c r : F64.float) (v : bool)
    (t : nat) (s : EdgeSampler) (t' : nat) :
  EdgeSampler_init tape n c r v t = Ret (s, t') ->
  NoDup (Name <$> getNodes s).
Proof.
  intros H. apply EdgeSampler_init_nodes_aux in H as [_ Hnodes].
  apply NoDup_alt. intros i j name Hi Hj.
  apply list_lookup_fmap_Some in Hi as (a & -> & Ha).
  apply list_lookup_fmap_Some in Hj as (b & Hab & Hb).
  apply Hnodes in Ha as [Ha _]. apply Hnodes in Hb as [Hb _].
  rewrite Ha, Hb in Hab. apply format_int_inj in Hab. lia.
Qed.

End Nodes.

Lemma EdgeSampler_init_nodes_witness :
  exists s t',
    EdgeSampler_init lcg_tape 3 (F64.dec 1 2) F64.zero false 0 = Ret (s, t')
    /\ length (getNodes s) = 3%nat
    /\ t' = 3%nat
    /\ forall i node,
         getNodes s !! i = Some node ->
         Name node = format_int (Z.of_nat i) /\ exists ty, Type_ node = Some ty.
Proof.
  destruct (EdgeSampler_init lcg_tape 3 (F64.dec 1 2) F64.zero false 0)
    as [[s t']|e|] eqn:E; [|vm_compute in E; discriminate..].
  exists s, t'. split; [reflexivity|].
  exact (EdgeSampler_init_nodes lcg_tape 3 _ _ _ _ s t' E).
Defined.

Lemma EdgeSampler_init_names_distinct_witness :
  exists s t',
    EdgeSampler_init lcg_tape 3 (F64.dec 1 2) F64.zero false 0 = Ret (s, t')
    /\ NoDup (Name <$> getNodes s).
Proof.
  destruct (EdgeSampler_init lcg_tape 3 (F64.dec 1 2) F64.zero false 0)
    as [[s t']|e|] eqn:E; [|vm_compute in E; discriminate..].
  exists s, t'. split; [reflexivity|].
  exact (EdgeSampler_init_names_distinct lcg_tape 3 _ _ _ _ s t' E).
Defined.

(** ** The type of a node by the interval of its draw *)

Section Thresholds.

Import NodeSampler.

Lemma cumulative_weights :
  F64.add F64.zero (F64.dec 78 100) = F64.dec 78 100
  /\ F64.add (F64.dec 78 100) (F64.dec 12 100) = F64.dec 9 10
  /\ F64.add (F64.dec 9 10) (F64.dec 8 100) = F64.dec 98 100
  /\ F64.add (F64.dec 98 100) (F64.dec 2 100) = F64.one.
Proof. vm_compute. repeat split. Qed.

(** X3: the running totals of the scan are the binary64 numbers 0.78, 0.9,
    0.98 and 1.0, so a draw [r] gives GSCC when [r <= 0.78], GOUT when
    [0.78 < r <= 0.9], GIN when [0.9 < r <= 0.98], DC when [0.98 < r <= 1],
    and nothing at all in the remaining case (a draw above 1 or a NaN). *)
Theorem sampleNode_by_interval (r : F64.float) :
  sampleNode r =
    if F64.leb r (F64.dec 78 100) then Some GSCC
    else if F64.leb r (F64.dec 9 10) then Some GOUT
    else if F64.leb r (F64.dec 98 100) then Some GIN
    else if F64.leb r F64.one then Some DC
    else None.
Proof.
  destruct cumulative_weights as (H1 & H2 & H3 & H4).
  unfold sampleNode, samplingrate. cbn [scan].
  rewrite H1, H2, H3, H4. reflexivity.
Qed.

End Thresholds.

(** ** What the sampling loop accepts *)

Section Accepted.

Variable tape : nat -> Z.

Lemma tape_index (t : nat) (n : nat) :
  (0 < n)%nat -> (Z.to_nat (tape t mod Z.of_nat n) < n)%nat.
Proof.
  intros Hn. pose proof (Z.mod_pos_bound (tape t) (Z.of_nat n)). lia.
Qed.

Lemma sample_from_one {A} (pool : list A) (t : nat) :
  (1 <= length pool)%nat ->
  exists a, a ∈ pool /\ sample_from tape pool 1 t = ([a], S t).
Proof.
  intros Hlen. simpl.
  destruct (lookup_lt_is_Some_2 pool _ (tape_index t (length pool) Hlen))
    as [a Ha].
  rewrite Ha. exists a. split; [|reflexivity].
  eapply list_elem_of_lookup_2, Ha.
Qed.

(** A sample of two is taken at two different positions. *)
Lemma sample_from_two {A} (pool : list A) (t : nat) :
  (2 <= length pool)%nat ->
  exists i j a b,
    i <> j /\ pool !! i = Some a /\ pool !! j = Some b
    /\ sample_from tape pool 2 t = ([a; b], S (S t)).
Proof.
  intros Hlen. cbn [sample_from].
  set (i := Z.to_nat (tape t mod Z.of_nat (length pool))).
  assert (Hi : (i < length pool)%nat) by (apply tape_index; lia).
  destruct (lookup_lt_is_Some_2 pool i Hi) as [a Ha]. rewrite Ha.
  assert (Hd : length (delete i pool) = (length pool - 1)%nat)
    by (apply length_delete; eauto).
  set (j := Z.to_nat (tape (S t) mod Z.of_nat (length (delete i pool)))).
  assert (Hj : (j < length (delete i pool))%nat) by (apply tape_index; lia).
  destruct (lookup_lt_is_Some_2 _ j Hj) as [b Hb]. rewrite Hb.
  rewrite list_lookup_delete in Hb.
  exists i, (if decide (j < i)%nat then j else S j), a, b.
  split; [destruct (decide (j < i)%nat); lia|]. auto.
Qed.

(** The constructor on a flagged edge, reversed. *)
Lemma flagged_reverse (s d : Node) (e : Edge) :
  Edge_init s d = Ret e ->
  Reciproc e = true ->
  e = {| Source := s; Dest := d; Reciproc := true |}
  /\ Edge_init d s = Ret {| Source := d; Dest := s; Reciproc := true |}.
Proof.
  intros He Hr.
  destruct (Edge_init_cases s d) as [[_ [msg Hm]]|[_ Hok]]; [congruence|].
  rewrite Hok in He. injection He as <-. simpl in Hr.
  apply andb_true_iff in Hr as [Hs Hd]. rewrite Hs, Hd. simpl.
  apply has_type_true in Hs, Hd.
  split; [reflexivity|].
  unfold Edge_init, has_type. rewrite Hs, Hd. reflexivity.
Qed.

Lemma linked_reverse (nodes : list Node) (e : Edge) :
  linked nodes e ->
  Reciproc e = true ->
  exists e', constructReciproc e = Ret e' /\ linked nodes e'
             /\ Reciproc e' = true.
Proof.
  intros (i & j & a & b & Hij & Ha & Hb & He) Hr.
  destruct (flagged_reverse a b e He Hr) as [-> Hrev].
  eexists. unfold constructReciproc. simpl. split; [exact Hrev|].
  split; [|reflexivity].
  exists j, i, b, a. auto.
Qed.

(** The rejection loop, when it has at least two nodes to draw from, either
    returns a linked edge or runs out of fuel. *)
Lemma sampleEdge_cases (self : EdgeSampler) :
  (2 <= length (sampled_nodes self))%nat ->
  forall fuel t,
    sampleEdge tape fuel self t = OutOfFuel
    \/ exists e t', sampleEdge tape fuel self t = Ret (e, t')
                    /\ linked (sampled_nodes self) e.
Proof.
  intros Hlen. induction fuel as [|fuel IH]; intros t; [left; reflexivity|].
  simpl. unfold bind, sample.
  destruct (Nat.ltb_spec (length (sampled_nodes self)) 2) as [?|_]; [lia|].
  destruct (sample_from_two (sampled_nodes self) t Hlen)
    as (i & j & a & b & Hij & Ha & Hb & ->).
  destruct (Edge_init_cases a b) as [[_ [msg ->]]|[_ Hok]].
  - apply IH.
  - rewrite Hok. right. eexists _, _. split; [reflexivity|].
    exists i, j, a, b. auto.
Qed.

Lemma sampleEdge_linked (fuel : nat) (self : EdgeSampler)
    (t : nat) (e : Edge) (t' : nat) :
  sampleEdge tape fuel self t = Ret (e, t') ->
  linked (sampled_nodes self) e.
Proof.
  intros H.
  destruct (Nat.lt_ge_cases (length (sampled_nodes self)) 2) as [Hlt|Hge].
  - destruct fuel as [|fuel]; [discriminate|]. simpl in H.
    unfold bind, sample in H.
    destruct (Nat.ltb_spec (length (sampled_nodes self)) 2); [discriminate|lia].
  - destruct (sampleEdge_cases self Hge fuel t) as [Ho|(e0 & t0 & Hr & Hl)];
      [congruence|].
    rewrite Hr in H. injection H as <- <-. exact Hl.
Qed.

Lemma linked_valid (nodes : list Node) (e : Edge) :
  linked nodes e ->
  Source e ∈ nodes /\ Dest e ∈ nodes
  /\ valid_pair (Source e) (Dest e)
  /\ (Reciproc e = true
      <-> Type_ (Source e) = Some GSCC /\ Type_ (Dest e) = Some GSCC).
Proof.
  intros (i & j & a & b & _ & Ha & Hb & He).
  destruct (Edge_init_cases a b) as [[_ [msg Hm]]|[Hv Hok]]; [congruence|].
  rewrite Hok in He. injection He as <-. simpl.
  split; [eapply list_elem_of_lookup_2, Ha|].
  split; [eapply list_elem_of_lookup_2, Hb|].
  split; [exact Hv|].
  rewrite andb_true_iff, !has_type_true. reflexivity.
Qed.

Lemma sampleEdge_too_few_nodes_aux (fuel : nat) (self : EdgeSampler)
    (t : nat) :
  (length (sampled_nodes self) < 2)%nat ->
  sampleEdge tape (S fuel) self t = Raise ValueError.
Proof.
  intros Hlt. simpl. unfold bind, sample.
  destruct (Nat.ltb_spec (length (sampled_nodes self)) 2); [reflexivity|lia].
Qed.

(** X4: the constraint violations of the pairs that [sampleEdge] rejects
    are all caught: no [TypeError] ever leaves it, and the only exception it
    can raise is the [ValueError] of [random.sample] on fewer than two nodes.
    An edge that it returns joins two nodes of the sampler taken at different
    positions and satisfies the three validity rules. *)
Theorem sampleEdge_returns_valid (fuel : nat) (self : EdgeSampler) (t : nat) :
  (forall msg, sampleEdge tape fuel self t <> Raise (TypeError msg))
  /\ (forall x, sampleEdge tape fuel self t = Raise x ->
        x = ValueError /\ (length (sampled_nodes self) < 2)%nat)
  /\ (forall e t',
        sampleEdge tape fuel self t = Ret (e, t') ->
        (exists i j,
           i <> j
           /\ sampled_nodes self !! i = Some (Source e)
           /\ sampled_nodes self !! j = Some (Dest e))
        /\ valid_pair (Source e) (Dest e)).
Proof.
  assert (Hraise : forall x, sampleEdge tape fuel self t = Raise x ->
            x = ValueError /\ (length (sampled_nodes self) < 2)%nat).
  { intros x Hx.
    destruct (Nat.lt_ge_cases (length (sampled_nodes self)) 2) as [Hlt|Hge].
    - destruct fuel as [|fuel']; [discriminate|].
      rewrite (sampleEdge_too_few_nodes_aux fuel' self t Hlt) in Hx.
      injection Hx as <-. auto.
    - destruct (sampleEdge_cases self Hge fuel t) as [Ho|(e & t' & Hr & _)];
        congruence. }
  split; [|split; [exact Hraise|]].
  - intros msg Hx. apply Hraise in Hx as [Hx _]. discriminate.
  - intros e t' H. apply sampleEdge_linked in H.
    split; [|apply (linked_valid _ _ H)].
    destruct H as (i & j & a & b & Hij & Ha & Hb & He).
    destruct (Edge_init_cases a b) as [[_ [msg Hm]]|[_ Hok]]; [congruence|].
    rewrite Hok in He. injection He as <-. simpl. eauto.
Qed.

Lemma candidate_eq (fuel : nat) (self : EdgeSampler) (reciproc : list Edge)
    (t : nat) :
  candidate tape fuel self reciproc t =
    let r := binary_normalize F64.prec F64.emax (tape t mod 2 ^ 53) (-53) false in
    if F64.ltb (reciprocity self) r || (length reciproc =? 0)%nat then
      sampleEdge tape fuel self (S t)
    else
      match sample tape reciproc 1 (S t) with
      | Ret (picked, t1) =>
          match picked with
          | [] => Raise IndexError
          | e :: _ => lift (constructReciproc e) t1
          end
      | Raise x => Raise x
      | OutOfFuel => OutOfFuel
      end.
Proof.
  unfold candidate, bind, random. cbv zeta.
  destruct (F64.ltb _ _ || _); [reflexivity|].
  destruct (sample tape reciproc 1 (S t)) as [[[|e l] t1]| |]; reflexivity.
Qed.

Lemma candidate_linked (self : EdgeSampler) (reciproc : list Edge)
    (fuel t : nat) (e : Edge) (t' : nat) :
  pool_ok (sampled_nodes self) reciproc ->
  candidate tape fuel self reciproc t = Ret (e, t') ->
  linked (sampled_nodes self) e.
Proof.
  intros Hpool H. rewrite candidate_eq in H. cbv zeta in H.
  destruct (F64.ltb _ _ || (length reciproc =? 0)%nat) eqn:Hpath.
  - apply sampleEdge_linked in H. exact H.
  - apply orb_false_iff in Hpath as [_ Hnonempty].
    apply Nat.eqb_neq in Hnonempty.
    unfold sample in H.
    destruct (Nat.ltb_spec (length reciproc) 1) as [?|Hge]; [lia|].
    destruct (sample_from_one reciproc (S t) Hge) as (e0 & He0 & Hs).
    rewrite Hs in H.
    unfold pool_ok in Hpool. rewrite Forall_forall in Hpool.
    destruct (Hpool e0 He0) as [Hl Hr].
    destruct (linked_reverse _ e0 Hl Hr) as (e' & He' & Hl' & _).
    rewrite He' in H. simpl in H. injection H as <- <-. exact Hl'.
Qed.

Lemma candidate_cases (self : EdgeSampler) (reciproc : list Edge) :
  (2 <= length (sampled_nodes self))%nat ->
  pool_ok (sampled_nodes self) reciproc ->
  forall fuel t,
    candidate tape fuel self reciproc t = OutOfFuel
    \/ exists e t', candidate tape fuel self reciproc t = Ret (e, t').
Proof.
  intros Hlen Hpool fuel t. rewrite candidate_eq. cbv zeta.
  destruct (F64.ltb _ _ || (length reciproc =? 0)%nat) eqn:Hpath.
  - destruct (sampleEdge_cases self Hlen fuel (S t))
      as [Ho|(e & t' & Hr & _)]; [left; exact Ho | right; eauto].
  - apply orb_false_iff in Hpath as [_ Hnonempty].
    apply Nat.eqb_neq in Hnonempty.
    unfold sample.
    destruct (Nat.ltb_spec (length reciproc) 1) as [?|Hge]; [lia|].
    destruct (sample_from_one reciproc (S t) Hge) as (e & He & ->).
    unfold pool_ok in Hpool. rewrite Forall_forall in Hpool.
    destruct (Hpool e He) as [Hl Hr].
    destruct (linked_reverse _ e Hl Hr) as (e' & -> & _).
    right. simpl. eauto.
Qed.

Lemma pool_ok_step (nodes : list Node) (reciproc : list Edge) (edge : Edge) :
  pool_ok nodes reciproc ->
  linked nodes edge ->
  pool_ok nodes (if getReciproc edge then (reciproc ++ [edge])%list
                 else reciproc).
Proof.
  intros Hpool Hl. unfold getReciproc.
  destruct (Reciproc edge) eqn:Hr; [|exact Hpool].
  apply Forall_app. split; [exact Hpool|]. repeat constructor; assumption.
Qed.

Lemma sampleEdges_loop_linked (fuel : nat) :
  forall (self : EdgeSampler) (num_edge : Z) (seen : gset string)
         (reciproc : list Edge) (t : nat) (self' : EdgeSampler) (t' : nat),
    pool_ok (sampled_nodes self) reciproc ->
    sampleEdges_loop tape fuel self num_edge seen reciproc t
    = Ret (self', t') ->
    exists new,
      edges self' = (edges self ++ new)%list
      /\ Forall (linked (sampled_nodes self)) new.
Proof.
  induction fuel as [|fuel IH];
    intros self n seen reciproc t self' t' Hpool H;
    simpl in H; destruct (Z.ltb_spec n (num_edges self)) as [Hlt|Hge];
    simpl in H; try discriminate.
  - injection H as <- <-. exists []. rewrite app_nil_r. auto.
  - apply bind_Ret in H as (edge & t1 & Hc & H).
    apply (candidate_linked _ _ _ _ _ _ Hpool) in Hc.
    destruct (bool_decide (getKey edge ∈ seen)); simpl in H.
    + apply (IH _ _ _ _ _ _ _ Hpool H).
    + apply IH in H as (new & He & Hnew);
        [|apply (pool_ok_step _ _ _ Hpool Hc)].
      exists (edge :: new). simpl in He, Hnew.
      rewrite He, <- app_assoc. split; [reflexivity|].
      constructor; assumption.
  - injection H as <- <-. exists []. rewrite app_nil_r. auto.
Qed.

Lemma sampleEdges_loop_no_raise (fuel : nat) :
  forall (self : EdgeSampler) (num_edge : Z) (seen : gset string)
         (reciproc : list Edge) (t : nat) (x : exn),
    (2 <= length (sampled_nodes self))%nat ->
    pool_ok (sampled_nodes self) reciproc ->
    sampleEdges_loop tape fuel self num_edge seen reciproc t <> Raise x.
Proof.
  induction fuel as [|fuel IH]; intros self n seen reciproc t x Hlen Hpool;
    simpl; destruct (Z.ltb_spec n (num_edges self)) as [Hlt|Hge];
    simpl; try discriminate.
  unfold bind at 1.
  destruct (candidate_cases self reciproc Hlen Hpool fuel t)
    as [->|(edge & t1 & Hc)]; [discriminate|].
  rewrite Hc. apply (candidate_linked _ _ _ _ _ _ Hpool) in Hc.
  destruct (bool_decide (getKey edge ∈ seen)); simpl.
  - apply IH; assumption.
  - apply IH; [exact Hlen|]. apply (pool_ok_step _ _ _ Hpool Hc).
Qed.

Lemma sampleEdges_linked (fuel : nat) (self : EdgeSampler) (t : nat)
    (es : list Edge) (self' : EdgeSampler) (t' : nat) :
  sampleEdges tape fuel self t = Ret (es, self', t') ->
  exists new,
    es = (edges self ++ new)%list
    /\ Forall (linked (sampled_nodes self)) new.
Proof.
  unfold sampleEdges. intros H.
  apply bind_Ret in H as (s1 & t1 & Hloop & H). injection H as <- <- <-.
  apply sampleEdges_loop_linked in Hloop; [exact Hloop|constructor].
Qed.

(** X5: every edge that a call of [sampleEdges] adds joins two nodes of
    the sampler, satisfies the three validity rules, and carries the
    reciprocity flag exactly when both ends are GSCC; this holds for the
    edges obtained by reversing a pooled edge as well as for the freshly
    sampled ones. *)
Theorem sampleEdges_accepts_valid (fuel : nat) (self : EdgeSampler) (t : nat)
    (es : list Edge) (self' : EdgeSampler) (t' : nat) :
  sampleEdges tape fuel self t = Ret (es, self', t') ->
  exists new,
    es = (edges self ++ new)%list
    /\ forall e, e ∈ new ->
         Source e ∈ sampled_nodes self /\ Dest e ∈ sampled_nodes self
         /\ valid_pair (Source e) (Dest e)
         /\ (Reciproc e = true
             <-> Type_ (Source e) = Some GSCC /\ Type_ (Dest e) = Some GSCC).
Proof.
  intros H. apply sampleEdges_linked in H as (new & Hes & Hnew).
  exists new. split; [exact Hes|].
  rewrite Forall_forall in Hnew. intros e He.
  apply linked_valid, Hnew, He.
Qed.

(** X6: with at least two nodes no exception leaves [sampleEdges]: a call
    returns or keeps sampling.  In particular reversing a pooled edge never
    fails. *)
Theorem sampleEdges_never_raises (fuel : nat) (self : EdgeSampler) (t : nat)
    (x : exn) :
  (2 <= length (sampled_nodes self))%nat ->
  sampleEdges tape fuel self t <> Raise x.
Proof.
  intros Hlen. unfold sampleEdges, bind.
  pose proof (sampleEdges_loop_no_raise fuel self 0 ∅ [] t) as Hno.
  destruct (sampleEdges_loop tape fuel self 0 ∅ [] t) as [[s1 t1]|e|] eqn:E;
    try discriminate.
  exfalso. apply (Hno e Hlen); [constructor|reflexivity].
Qed.

Lemma bind_Raise {A B} (m : Rand A) (f : A -> Rand B) (t : nat) (x : exn) :
  m t = Raise x -> bind m f t = Raise x.
Proof. unfold bind. intros ->. reflexivity. Qed.

(** X7: with fewer than two nodes and a positive target the first round
    of [sampleEdges] fails with the [ValueError] of [random.sample]; a
    negative node count leads there, since it gives no node and a positive
    target. *)
Theorem sampleEdges_too_few_nodes (fuel : nat) (self : EdgeSampler) (t : nat) :
  (length (sampled_nodes self) < 2)%nat ->
  (0 < num_edges self)%Z ->
  sampleEdges tape (S (S fuel)) self t = Raise ValueError.
Proof.
  intros Hlen Hpos. unfold sampleEdges. apply bind_Raise.
  cbn [sampleEdges_loop].
  destruct (Z.ltb_spec 0 (num_edges self)) as [_|?]; [|lia].
  cbn [negb]. apply bind_Raise.
  rewrite candidate_eq. cbv zeta. rewrite orb_true_r.
  apply sampleEdge_too_few_nodes_aux, Hlen.
Qed.

(** X8: when the nodes have pairwise distinct names, no edge added by
    [sampleEdges] is a self-loop. *)
Theorem sampleEdges_no_self_loop (fuel : nat) (self : EdgeSampler) (t : nat)
    (es : list Edge) (self' : EdgeSampler) (t' : nat) :
  NoDup (Name <$> sampled_nodes self) ->
  sampleEdges tape fuel self t = Ret (es, self', t') ->
  exists new,
    es = (edges self ++ new)%list
    /\ forall e, e ∈ new -> Name (Source e) <> Name (Dest e).
Proof.
  intros Hnd H. apply sampleEdges_linked in H as (new & Hes & Hnew).
  exists new. split; [exact Hes|].
  rewrite Forall_forall in Hnew. intros e He.
  destruct (Hnew e He) as (i & j & a & b & Hij & Ha & Hb & Hinit).
  destruct (Edge_init_cases a b) as [[_ [msg Hm]]|[_ Hok]]; [congruence|].
  rewrite Hok in Hinit. injection Hinit as <-. simpl.
  intros Heq. apply Hij.
  apply (NoDup_lookup _ i j (Name a) Hnd);
    rewrite list_lookup_fmap; [rewrite Ha | rewrite Hb, Heq]; reflexivity.
Qed.

End Accepted.

(** ** Reversing edges *)

Section Reversal.

Import InterstingStats.

(** X9: reversing a flagged edge is an involution: the reverse of the
    reverse is the edge itself, and the key of the reverse is the reverse key
    that the reciprocity statistic looks up. *)
Theorem constructReciproc_involutive (s d : Node) (e e' : Edge) :
  Edge_init s d = Ret e ->
  Reciproc e = true ->
  constructReciproc e = Ret e' ->
  constructReciproc e' = Ret e /\ getKey e' = reciprocalKey e.
Proof.
  intros He Hr He'.
  destruct (flagged_reverse s d e He Hr) as [-> Hrev].
  unfold constructReciproc in He'. simpl in He'. rewrite Hrev in He'.
  injection He' as <-. unfold constructReciproc. simpl.
  split; [|reflexivity].
  destruct (flagged_reverse d s _ Hrev eq_refl) as [_ Hback]. exact Hback.
Qed.

Lemma constructReciproc_involutive_witness :
  let s := {| Name := "0"; Type_ := Some GSCC |} in
  let d := {| Name := "1"; Type_ := Some GSCC |} in
  let e := {| Source := s; Dest := d; Reciproc := true |} in
  let e' := {| Source := d; Dest := s; Reciproc := true |} in
  constructReciproc e' = Ret e /\ getKey e' = reciprocalKey e.
Proof.
  intros s d e e'.
  apply (constructReciproc_involutive s d e e'); reflexivity.
Defined.

(** X10: a constructed edge can be reversed exactly when its source is not
    a GIN node and its destination is not a GOUT node.  So DC-to-DC edges are
    reversible although they never carry the reciprocity flag. *)
Theorem constructReciproc_iff (s d : Node) (e : Edge) :
  Edge_init s d = Ret e ->
  ((exists e', constructReciproc e = Ret e')
   <-> Type_ s <> Some GIN /\ Type_ d <> Some GOUT).
Proof.
  intros He.
  destruct (Edge_init_cases s d) as [[_ [msg Hm]]|[Hv Hok]]; [congruence|].
  rewrite Hok in He. injection He as <-.
  unfold constructReciproc. simpl.
  destruct Hv as (Hs & Hd & Hdc).
  destruct (Edge_init_cases d s) as [[Hbad [msg Hm]]|[Hv' Hok']].
  - rewrite Hm. split; [intros [e' He']; discriminate|].
    intros [Hs' Hd']. exfalso.
    unfold violates, exactly_one_DC, rule_source, rule_dest, rule_dc in *.
    tauto.
  - rewrite Hok'. split; [|eauto]. intros _.
    unfold valid_pair, rule_source, rule_dest in Hv'. tauto.
Qed.

Lemma constructReciproc_iff_witness :
  let s := {| Name := "0"; Type_ := Some DC |} in
  let d := {| Name := "1"; Type_ := Some DC |} in
  let e := {| Source := s; Dest := d; Reciproc := false |} in
  (exists e', constructReciproc e = Ret e')
  <-> Type_ s <> Some GIN /\ Type_ d <> Some GOUT.
Proof. intros s d e. apply (constructReciproc_iff s d e). reflexivity. Defined.

End Reversal.

(** ** Keys of numbered nodes *)

Section Keys.

Lemma dash_free_cons (ch : ascii) (s : string) :
  dash_free (String ch s) <-> ch <> "-"%char /\ dash_free s.
Proof.
  unfold dash_free. split.
  - intros H. split.
    + intros ->. apply (H 0%nat). reflexivity.
    + intros i. apply (H (S i)).
  - intros [Hch Hs] [|i]; simpl; [congruence | apply Hs].
Qed.

Lemma dash_free_nil : dash_free "".
Proof. intros i. destruct i; discriminate. Qed.

Lemma string_of_uint_dash_free (d : Decimal.uint) :
  dash_free (NilEmpty.string_of_uint d).
Proof.
  induction d; simpl; try apply dash_free_nil;
    apply dash_free_cons; (split; [discriminate | assumption]).
Qed.

(** The numeral of a natural number has no dash. *)
Lemma format_int_dash_free (i : nat) : dash_free (format_int (Z.of_nat i)).
Proof.
  unfold format_int, NilZero.string_of_int.
  destruct (Z.to_int (Z.of_nat i)) as [d|d] eqn:E.
  - unfold NilZero.string_of_uint. destruct d; try apply string_of_uint_dash_free.
    apply dash_free_cons. split; [discriminate | apply dash_free_nil].
  - destruct i; simpl in E; discriminate.
Qed.

(** Two arrows between dash-free names coincide only when the names do. *)
Lemma arrow_inj (a b c d : string) :
  dash_free a -> dash_free c ->
  a ++ "->" ++ b = c ++ "->" ++ d -> a = c /\ b = d.
Proof.
  revert c. induction a as [|x a IH]; intros [|y c] Ha Hc H;
    cbv [String.append] in H; fold String.append in H.
  - injection H as ->. auto.
  - injection H as <- _. apply dash_free_cons in Hc as [Hc _]. congruence.
  - injection H as -> _. apply dash_free_cons in Ha as [Ha _]. congruence.
  - injection H as -> H.
    apply dash_free_cons in Ha as [_ Ha]. apply dash_free_cons in Hc as [_ Hc].
    destruct (IH c Ha Hc H) as [-> ->]. auto.
Qed.

(** X11: between nodes of a constructed sampler the string key is as good
    as the pair of names: two edges have the same key only if they have the
    same source name and the same destination name, so the duplicate test of
    the sampling loop never rejects a new pair. *)
Theorem getKey_inj_on_nodes (tape : nat -> Z) (n : Z) (c r : F64.float)
    (v : bool) (t : nat) (s : EdgeSampler) (t' : nat) (e1 e2 : Edge) :
  EdgeSampler_init tape n c r v t = Ret (s, t') ->
  Source e1 ∈ getNodes s -> Source e2 ∈ getNodes s ->
  getKey e1 = getKey e2 ->
  key_pair e1 = key_pair e2.
Proof.
  intros Hinit H1 H2 Hk.
  assert (Hdash : forall a, a ∈ getNodes s -> dash_free (Name a)).
  { intros a Ha. apply list_elem_of_lookup in Ha as [i Hi].
    destruct (EdgeSampler_init_nodes_aux tape _ _ _ _ _ _ _ Hinit) as [_ Hn].
    destruct (Hn i a Hi) as [-> _]. apply format_int_dash_free. }
  unfold getKey, getName in Hk.
  apply arrow_inj in Hk as [Hs Hd]; [|apply Hdash; assumption..].
  unfold key_pair. congruence.
Qed.

(** Names that contain an arrow do collide. *)
Example getKey_collision :
  let n (s : string) := {| Name := s; Type_ := Some GSCC |} in
  getKey {| Source := n "a->b"; Dest := n "c"; Reciproc := true |}
  = getKey {| Source := n "a"; Dest := n "b->c"; Reciproc := true |}.
Proof. reflexivity. Qed.

End Keys.

(** ** More on the reciprocity statistic *)

Section RateFacts.

Import InterstingStats.

Lemma filter_none {A} (P : A -> Prop) `{forall x, Decision (P x)} (l : list A) :
  (forall x, x ∈ l -> ~ P x) -> filter P l = [].
Proof.
  induction l as [|x l IH]; intros Hl; [reflexivity|].
  rewrite filter_cons, decide_False by (apply Hl; constructor).
  apply IH. intros y Hy. apply Hl. constructor. exact Hy.
Qed.

(** X12: the statistic does not depend on the order of the edges. *)
Theorem getReciprocityRate_perm (samples samples' : list Edge) :
  samples ≡ₚ samples' ->
  getReciprocityRate samples = getReciprocityRate samples'.
Proof.
  intros Hp. unfold getReciprocityRate.
  rewrite !collect_keys_key_set, !count_reciprocal_filter.
  assert (HK : key_set samples = key_set samples').
  { unfold key_set. apply set_eq. intros k.
    rewrite !elem_of_list_to_set. rewrite Hp. reflexivity. }
  rewrite HK. rewrite Hp. reflexivity.
Qed.

Lemma getReciprocityRate_perm_witness :
  let n0 := {| Name := "0"; Type_ := Some GSCC |} in
  let n1 := {| Name := "1"; Type_ := Some GSCC |} in
  let e := {| Source := n0; Dest := n1; Reciproc := true |} in
  let e' := {| Source := n1; Dest := n0; Reciproc := true |} in
  getReciprocityRate [e; e'; e] = getReciprocityRate [e; e; e'].
Proof.
  intros n0 n1 e e'. apply getReciprocityRate_perm.
  apply perm_skip, perm_swap.
Defined.

Lemma of_Z_pos_finite (n : Z) :
  (0 < n < 2 ^ 53)%Z -> exists m e, F64.of_Z n = S754_finite false m e.
Proof.
  intros Hn. unfold F64.of_Z, binary_normalize.
  destruct n as [|p|p]; try lia.
  assert (Hd : (Z.pos (digits2_pos p) <= 53)%Z)
    by (apply digits2_pos_bound; lia).
  destruct (binary_round_exact false p 0) as [m Hm]; [lia|lia|eauto].
Qed.

(** X13: when no edge of a non-empty collection has its reverse key among
    the keys, the statistic is exactly zero. *)
Theorem getReciprocityRate_zero (samples : list Edge) :
  samples <> [] ->
  (Z.of_nat (length samples) < 2 ^ 53)%Z ->
  (forall e, e ∈ samples -> reciprocalKey e ∉ key_set samples) ->
  getReciprocityRate samples = Ret F64.zero.
Proof.
  intros Hne Hlen Hnone. unfold getReciprocityRate.
  rewrite collect_keys_key_set, count_reciprocal_filter.
  assert (Hf : filter (fun e => reciprocalKey e ∈ key_set samples) samples = []).
  { apply filter_none. exact Hnone. }
  rewrite Hf.
  pose proof (key_set_size_le samples) as Hsize.
  pose proof (key_set_size_pos samples Hne) as Hpos.
  unfold div_int.
  destruct (Z.eqb_spec (Z.of_nat (size (key_set samples))) 0) as [H0|_];
    [lia|].
  rewrite float_of_int_small by (simpl; lia).
  rewrite float_of_int_small by lia.
  destruct (of_Z_pos_finite (Z.of_nat (size (key_set samples))))
    as (m & e & ->); [lia|].
  reflexivity.
Qed.

Lemma getReciprocityRate_zero_witness :
  let n0 := {| Name := "0"; Type_ := Some GIN |} in
  let n1 := {| Name := "1"; Type_ := Some GSCC |} in
  getReciprocityRate [ {| Source := n0; Dest := n1; Reciproc := false |} ]
  = Ret F64.zero.
Proof.
  intros n0 n1. apply getReciprocityRate_zero.
  - discriminate.
  - simpl. lia.
  - intros e He. apply list_elem_of_singleton in He as ->.
    unfold key_set. simpl. intros Hin.
    apply elem_of_union in Hin as [Hin|Hin].
    + apply elem_of_singleton in Hin. discriminate.
    + apply elem_of_empty in Hin. exact Hin.
Defined.

(** X14: on the edges returned by the first call of [sampleEdges] the
    statistic divides by the target edge count: the keys are distinct, so
    there are as many keys as edges; the count of reciprocated edges does not
    exceed the target. *)
Theorem getReciprocityRate_of_sample (tape : nat -> Z) (fuel : nat)
    (self : EdgeSampler) (t : nat) (es : list Edge) (self' : EdgeSampler)
    (t' : nat) :
  edges self = [] ->
  (0 < num_edges self < 2 ^ 53)%Z ->
  sampleEdges tape fuel self t = Ret (es, self', t') ->
  getReciprocityRate es
  = Ret (F64.div
           (F64.mul (F64.of_Z (Z.of_nat (length (reciprocated es))))
              (F64.of_Z 100))
           (F64.of_Z (num_edges self)))
  /\ (Z.of_nat (length (reciprocated es)) <= num_edges self)%Z.
Proof.
  intros Hnil Hn H.
  apply sampleEdges_spec in H as (_ & _ & new & -> & Hnd & Hlen).
  rewrite Hnil in *. simpl app in *.
  assert (Hsize : size (key_set new) = length new).
  { unfold key_set. rewrite size_list_to_set by exact Hnd.
    apply length_fmap. }
  assert (Hne : new <> []) by (intros ->; simpl in Hlen; lia).
  pose proof (length_filter
                (fun e => reciprocalKey e ∈ key_set new) new) as Hcnt0.
  unfold getReciprocityRate.
  rewrite collect_keys_key_set, count_reciprocal_filter.
  pose proof (length_filter
                (fun e => reciprocalKey e ∈ key_set new) new) as Hcnt.
  rewrite float_of_int_small by lia.
  unfold div_int. rewrite Hsize.
  destruct (Z.eqb_spec (Z.of_nat (length new)) 0) as [H0|_]; [lia|].
  rewrite float_of_int_small by lia.
  replace (Z.of_nat (length new)) with (num_edges self) by lia.
  split; [reflexivity|]. unfold reciprocated. lia.
Qed.

End RateFacts.

(** ** The node-type distribution *)

Section Distribution.

Import InterstingStats.

Lemma bump_known (k : option NodeType) (d : ntdic_t) (c : Z) :
  NoDup d.*1 ->
  (k, c) ∈ d ->
  (bump k d).*1 = d.*1
  /\ forall k' c', (k', c') ∈ bump k d <->
       (k' <> k /\ (k', c') ∈ d) \/ (k' = k /\ c' = (c + 1)%Z).
Proof.
  induction d as [|[k0 c0] d IH]; intros Hnd Hin.
  - inversion Hin.
  - simpl in *. apply NoDup_cons in Hnd as [Hk0 Hnd].
    destruct (decide (k0 = k)) as [->|Hne].
    + split; [reflexivity|].
      assert (c0 = c) as ->.
      { apply elem_of_cons in Hin as [Heq|Hin]; [congruence|].
        exfalso. apply Hk0. apply list_elem_of_fmap. exists (k, c). auto. }
      intros k' c'. rewrite !elem_of_cons. split.
      * intros [Heq|Hin']; [injection Heq as -> ->; auto|].
        left. split; [|auto]. intros ->. apply Hk0.
        apply list_elem_of_fmap. exists (k, c'). auto.
      * intros [[Hne [Heq|Hin']]|[-> ->]].
        -- injection Heq as -> ->. congruence.
        -- right. exact Hin'.
        -- left. reflexivity.
    + apply elem_of_cons in Hin as [Heq|Hin]; [congruence|].
      destruct (IH Hnd Hin) as [IH1 IH2].
      split; [rewrite !fmap_cons, IH1; reflexivity|].
      intros k' c'. rewrite !elem_of_cons, IH2. split.
      * intros [Heq|[[H1 H2]|[-> ->]]].
        -- injection Heq as -> ->. left. split; [congruence | left; reflexivity].
        -- left. split; [exact H1 | right; exact H2].
        -- right. split; reflexivity.
      * intros [[H1 [Heq|H2]]|[-> ->]].
        -- left. exact Heq.
        -- right. left. split; assumption.
        -- right. right. split; reflexivity.
Qed.

Lemma bump_new (k : option NodeType) (d : ntdic_t) :
  k ∉ d.*1 -> bump k d = (d ++ [(k, 1%Z)])%list.
Proof.
  induction d as [|[k0 c0] d IH]; intros Hk; simpl.
  - reflexivity.
  - simpl in Hk. apply not_elem_of_cons in Hk as [Hne Hk].
    destruct (decide (k0 = k)); [congruence|]. rewrite IH by exact Hk.
    reflexivity.
Qed.

Lemma occurrences_snoc (k : option NodeType) (l : list Node) (x : Node) :
  occurrences k (l ++ [x])
  = (occurrences k l + (if decide (getType x = k) then 1 else 0))%nat.
Proof.
  unfold occurrences. rewrite filter_app, length_app. f_equal.
  rewrite filter_cons. destruct (decide (getType x = k)); reflexivity.
Qed.

Lemma tallied_step (d : ntdic_t) (l : list Node) (x : Node) :
  tallied d l -> tallied (bump (getType x) d) (l ++ [x]).
Proof.
  intros (Hnd & Hkeys & Hcnt).
  destruct (decide (getType x ∈ d.*1)) as [Hin|Hnin].
  - apply list_elem_of_fmap in Hin as ([k c] & Hk & Hin). simpl in Hk.
    subst k.
    destruct (bump_known _ _ _ Hnd Hin) as [Hsame Hel].
    split; [rewrite Hsame; exact Hnd|]. split.
    + intros k. rewrite Hsame, Hkeys, fmap_app, elem_of_app. simpl.
      rewrite list_elem_of_singleton. split; [auto|].
      intros [H| ->]; [exact H|]. apply Hkeys.
      apply list_elem_of_fmap. exists (getType x, c). auto.
    + intros k c' Hin'. apply Hel in Hin' as [[Hne Hin']|[-> ->]].
      * rewrite occurrences_snoc. rewrite decide_False by congruence.
        rewrite Nat.add_0_r. apply Hcnt, Hin'.
      * rewrite occurrences_snoc, decide_True by reflexivity.
        rewrite (Hcnt _ _ Hin). lia.
  - rewrite (bump_new _ _ Hnin). split; [|split].
    + rewrite fmap_app. simpl. apply NoDup_app. split; [exact Hnd|].
      split; [|apply NoDup_singleton].
      intros k Hk Hk'. apply list_elem_of_singleton in Hk'. congruence.
    + intros k. rewrite !fmap_app, !elem_of_app, Hkeys. simpl.
      rewrite !list_elem_of_singleton. reflexivity.
    + intros k c Hin. apply elem_of_app in Hin as [Hin|Hin].
      * rewrite occurrences_snoc. rewrite decide_False.
        -- rewrite Nat.add_0_r. apply Hcnt, Hin.
        -- intros Heq. apply Hnin. rewrite Heq.
           apply list_elem_of_fmap. exists (k, c). auto.
      * apply list_elem_of_singleton in Hin. injection Hin as -> ->.
        rewrite occurrences_snoc, decide_True by reflexivity.
        assert (occurrences (getType x) l = 0%nat) as ->; [|reflexivity].
        unfold occurrences. apply length_zero_iff_nil.
        apply filter_none. intros n Hn Heq.
        apply Hnin, Hkeys. rewrite <- Heq.
        apply list_elem_of_fmap. eauto.
Qed.

Lemma tally_acc (samples : list Node) :
  forall (d : ntdic_t) (l : list Node),
    tallied d l ->
    tallied (fold_left (fun ntdic sample => bump (getType sample) ntdic)
               samples d) (l ++ samples).
Proof.
  induction samples as [|x samples IH]; intros d l H; simpl.
  - rewrite app_nil_r. exact H.
  - replace (l ++ x :: samples)%list with ((l ++ [x]) ++ samples)%list
      by (rewrite <- app_assoc; reflexivity).
    apply IH, tallied_step, H.
Qed.

Lemma tally_tallied (samples : list Node) : tallied (tally samples) samples.
Proof.
  apply (tally_acc samples [] []).
  split; [constructor|]. split.
  - intros k. simpl. split; intros H; inversion H.
  - intros k c H. inversion H.
Qed.

(** X15: the dictionary built by the first loop of
    [getNodeTypeDistribution] has one entry per type that occurs among the
    nodes, no entry for a type that does not occur, and each entry holds the
    number of nodes of its type. *)
Theorem tally_counts (samples : list Node) :
  NoDup (tally samples).*1
  /\ (forall k, k ∈ (tally samples).*1 <-> exists n, n ∈ samples /\ getType n = k)
  /\ (forall k c, (k, c) ∈ tally samples ->
       c = Z.of_nat (occurrences k samples) /\ (0 < c)%Z).
Proof.
  destruct (tally_tallied samples) as (Hnd & Hkeys & Hcnt).
  split; [exact Hnd|]. split.
  - intros k. rewrite Hkeys, list_elem_of_fmap. split.
    + intros (n & -> & Hn). eauto.
    + intros (n & Hn & <-). eauto.
  - intros k c Hin. split; [apply Hcnt, Hin|].
    rewrite (Hcnt k c Hin).
    assert (Hk : k ∈ (tally samples).*1)
      by (apply list_elem_of_fmap; exists (k, c); auto).
    apply Hkeys, list_elem_of_fmap in Hk as (n & -> & Hn).
    unfold occurrences.
    assert (Hin' : n ∈ filter (fun m => getType m = getType n) samples)
      by (apply list_elem_of_filter; auto).
    destruct (filter _ samples); [inversion Hin' | simpl; lia].
Qed.

Lemma hundred : F64.dec 100 1 = F64.of_Z 100.
Proof. vm_compute. reflexivity. Qed.

Lemma percent_small (c n : Z) :
  (0 <= c < 2 ^ 53)%Z -> (0 < n < 2 ^ 53)%Z ->
  percent c n
  = Ret (F64.div (F64.mul (F64.of_Z c) (F64.of_Z 100)) (F64.of_Z n)).
Proof.
  intros Hc Hn. unfold percent, div_int.
  rewrite float_of_int_small by lia.
  destruct (Z.eqb_spec n 0); [lia|].
  rewrite float_of_int_small by lia. rewrite hundred. reflexivity.
Qed.

Lemma report_typed (samples : list Node) (d : ntdic_t) :
  (0 < Z.of_nat (length samples) < 2 ^ 53)%Z ->
  (forall k c, (k, c) ∈ d ->
     c = Z.of_nat (occurrences k samples) /\ exists ty, k = Some ty) ->
  exists tys,
    d.*1 = Some <$> tys
    /\ report d (Z.of_nat (length samples))
       = Ret ((fun ty => (value ty, share samples ty)) <$> tys).
Proof.
  intros Hlen. induction d as [|[k c] d IH]; intros Hd.
  - exists []. split; reflexivity.
  - destruct (Hd k c) as [Hc [ty ->]]; [constructor|].
    destruct IH as (tys & Hkeys & Hrep).
    { intros k' c' Hin. apply Hd. constructor. exact Hin. }
    exists (ty :: tys). split; [rewrite !fmap_cons, Hkeys; reflexivity|].
    cbn [report]. rewrite percent_small.
    + rewrite Hrep, Hc. reflexivity.
    + pose proof (length_filter (fun n => getType n = Some ty) samples).
      unfold occurrences in Hc. lia.
    + exact Hlen.
Qed.

(** X16: for a list of typed nodes (of fewer than 2^53 nodes)
    [getNodeTypeDistribution] reports one line per type that occurs, none for
    a type that does not occur, each with the share of its type in percent;
    on the empty list it reports nothing and does not fail. *)
Theorem getNodeTypeDistribution_lines (samples : list Node) :
  (forall n, n ∈ samples -> exists ty, getType n = Some ty) ->
  (Z.of_nat (length samples) < 2 ^ 53)%Z ->
  exists tys,
    NoDup tys
    /\ (forall ty, ty ∈ tys <-> exists n, n ∈ samples /\ getType n = Some ty)
    /\ getNodeTypeDistribution samples
       = Ret ((fun ty => (value ty, share samples ty)) <$> tys).
Proof.
  intros Htyped Hlen.
  destruct (tally_tallied samples) as (Hnd & Hkeys & Hcnt).
  unfold getNodeTypeDistribution.
  destruct samples as [|x rest] eqn:Es.
  - exists []. split; [constructor|]. split; [|reflexivity].
    intros ty. split; [intros H; inversion H|].
    intros (n & Hn & _). inversion Hn.
  - rewrite <- Es in *.
    destruct (report_typed samples (tally samples)) as (tys & Hk & Hrep).
    + rewrite Es. rewrite Es in Hlen. simpl length in *. lia.
    + intros k c Hin. split; [apply Hcnt, Hin|].
      assert (Hkin : k ∈ (tally samples).*1)
        by (apply list_elem_of_fmap; exists (k, c); auto).
      apply Hkeys, list_elem_of_fmap in Hkin as (n & -> & Hn).
      apply Htyped, Hn.
    + exists tys. rewrite Hk in Hnd, Hkeys.
      split; [apply (NoDup_fmap_1 _ _ Hnd)|]. split; [|exact Hrep].
      intros ty. rewrite <- (list_elem_of_fmap_inj Some), Hkeys.
      rewrite list_elem_of_fmap. split.
      * intros (n & -> & Hn). eauto.
      * intros (n & Hn & <-). eauto.
Qed.

Lemma report_no_division_by_zero (d : ntdic_t) (slen : Z) :
  slen <> 0%Z -> report d slen <> Raise ZeroDivisionError.
Proof.
  intros Hs. induction d as [|[k c] d IH]; [discriminate|].
  cbn [report]. unfold percent, div_int.
  destruct (float_of_int c) as [x|e|] eqn:Ec.
  - destruct (Z.eqb_spec slen 0); [contradiction|].
    destruct (float_of_int slen) as [y|e|] eqn:Es.
    + destruct k; [|discriminate].
      destruct (report d slen) as [lines|e|]; [discriminate| |discriminate].
      intros H. apply IH. congruence.
    + apply float_of_int_error in Es. congruence.
    + discriminate.
  - apply float_of_int_error in Ec. congruence.
  - discriminate.
Qed.

(** X17: unlike the reciprocity statistic, [getNodeTypeDistribution] never
    divides by zero, whatever the list of nodes: its division sits in the loop
    over the observed types, which is not entered for the empty list. *)
Theorem getNodeTypeDistribution_no_division_by_zero (samples : list Node) :
  getNodeTypeDistribution samples <> Raise ZeroDivisionError
  /\ getNodeTypeDistribution [] = Ret [].
Proof.
  split; [|reflexivity].
  unfold getNodeTypeDistribution. destruct samples as [|x rest].
  - discriminate.
  - apply report_no_division_by_zero. simpl length. lia.
Qed.

End Distribution.

(** ** Runs of the examples *)

Section Runs.

Import InterstingStats.

Lemma sampleEdge_returns_valid_witness :
  (forall msg, sampleEdge lcg_tape 10 small_sampler 0 <> Raise (TypeError msg))
  /\ exists e t',
       sampleEdge lcg_tape 10 small_sampler 0 = Ret (e, t')
       /\ (exists i j,
             i <> j
             /\ sampled_nodes small_sampler !! i = Some (Source e)
             /\ sampled_nodes small_sampler !! j = Some (Dest e))
       /\ valid_pair (Source e) (Dest e).
Proof.
  destruct (sampleEdge_returns_valid lcg_tape 10 small_sampler 0)
    as (Hno & _ & Hret).
  split; [exact Hno|].
  destruct (sampleEdge lcg_tape 10 small_sampler 0) as [[e t']|x|] eqn:E;
    [|vm_compute in E; discriminate..].
  exists e, t'. split; [reflexivity|]. apply (Hret e t'). reflexivity.
Defined.

Lemma sampleEdges_accepts_valid_witness :
  exists es s' t',
    sampleEdges lcg_tape 60 small_sampler 0 = Ret (es, s', t')
    /\ exists new,
         es = (edges small_sampler ++ new)%list
         /\ forall e, e ∈ new ->
              Source e ∈ sampled_nodes small_sampler
              /\ Dest e ∈ sampled_nodes small_sampler
              /\ valid_pair (Source e) (Dest e)
              /\ (Reciproc e = true
                  <-> Type_ (Source e) = Some GSCC
                      /\ Type_ (Dest e) = Some GSCC).
Proof.
  destruct (sampleEdges lcg_tape 60 small_sampler 0)
    as [[[es s'] t']|x|] eqn:E; [|vm_compute in E; discriminate..].
  exists es, s', t'. split; [reflexivity|].
  exact (sampleEdges_accepts_valid lcg_tape 60 small_sampler 0 es s' t' E).
Defined.

Lemma sampleEdges_never_raises_witness :
  sampleEdges lcg_tape 60 small_sampler 0 <> Raise ValueError.
Proof. apply sampleEdges_never_raises. simpl. lia. Defined.

Lemma sampleEdges_too_few_nodes_witness :
  exists s t,
    EdgeSampler_init counting_tape (-3) (F64.dec 1 2) F64.zero false 0
    = Ret (s, t)
    /\ sampled_nodes s = [] /\ num_edges s = 6%Z
    /\ sampleEdges counting_tape 2 s t = Raise ValueError.
Proof.
  destruct (EdgeSampler_init counting_tape (-3) (F64.dec 1 2) F64.zero false 0)
    as [[s t]|x|] eqn:E; vm_compute in E; try discriminate.
  injection E as <- <-. eexists _, _. split; [reflexivity|].
  split; [reflexivity|]. split; [reflexivity|].
  apply sampleEdges_too_few_nodes; simpl; lia.
Defined.

Lemma sampleEdges_no_self_loop_witness :
  exists es s' t',
    sampleEdges lcg_tape 60 small_sampler 0 = Ret (es, s', t')
    /\ exists new,
         es = (edges small_sampler ++ new)%list
         /\ forall e, e ∈ new -> Name (Source e) <> Name (Dest e).
Proof.
  destruct (sampleEdges lcg_tape 60 small_sampler 0)
    as [[[es s'] t']|x|] eqn:E; [|vm_compute in E; discriminate..].
  exists es, s', t'. split; [reflexivity|].
  apply (sampleEdges_no_self_loop lcg_tape 60 small_sampler 0 es s' t');
    [|exact E].
  apply (bool_decide_unpack _). vm_compute. exact I.
Defined.

Lemma getKey_inj_on_nodes_witness :
  let a := {| Name := "0"; Type_ := Some GSCC |} in
  let b := {| Name := "2"; Type_ := Some GSCC |} in
  key_pair {| Source := a; Dest := b; Reciproc := true |}
  = key_pair {| Source := a; Dest := b; Reciproc := false |}.
Proof.
  intros a b.
  destruct (EdgeSampler_init lcg_tape 3 (F64.dec 1 2) F64.zero false 0)
    as [[s t']|x|] eqn:E; [|vm_compute in E; discriminate..].
  apply (getKey_inj_on_nodes lcg_tape 3 _ _ _ _ s t' _ _ E);
    [| |reflexivity];
    (pose proof E as E0; vm_compute in E0; injection E0 as <- _;
     simpl; constructor).
Defined.

Lemma getReciprocityRate_of_sample_witness :
  exists es s' t',
    sampleEdges lcg_tape 60 small_sampler 0 = Ret (es, s', t')
    /\ getReciprocityRate es
       = Ret (F64.div
                (F64.mul (F64.of_Z (Z.of_nat (length (reciprocated es))))
                   (F64.of_Z 100))
                (F64.of_Z (num_edges small_sampler)))
    /\ (Z.of_nat (length (reciprocated es)) <= num_edges small_sampler)%Z.
Proof.
  destruct (sampleEdges lcg_tape 60 small_sampler 0)
    as [[[es s'] t']|x|] eqn:E; [|vm_compute in E; discriminate..].
  exists es, s', t'. split; [reflexivity|].
  apply (getReciprocityRate_of_sample lcg_tape 60 small_sampler 0 es s' t');
    [reflexivity | simpl; lia | exact E].
Defined.

Lemma getNodeTypeDistribution_lines_witness :
  let node (s : string) (ty : NodeType) := {| Name := s; Type_ := Some ty |} in
  let samples := [ node "0" GSCC; node "1" GSCC; node "2" GOUT;
                   node "3" DC; node "4" GSCC ] in
  exists tys,
    NoDup tys
    /\ (forall ty, ty ∈ tys <-> exists n, n ∈ samples /\ getType n = Some ty)
    /\ getNodeTypeDistribution samples
       = Ret ((fun ty => (value ty, share samples ty)) <$> tys).
Proof.
  intros node samples. apply getNodeTypeDistribution_lines.
  - intros n Hn. subst samples.
    repeat (apply elem_of_cons in Hn as [-> | Hn]; [simpl; eauto|]).
    inversion Hn.
  - simpl. lia.
Defined.

(** The scenario of five nodes of types GSCC, GSCC, GOUT, DC, GSCC: 60%,
    20% and 20%, in the order in which the types first occur, and no line
    for GIN. *)
Example distribution_of_five :
  let node (s : string) (ty : NodeType) := {| Name := s; Type_ := Some ty |} in
  getNodeTypeDistribution
    [ node "0" GSCC; node "1" GSCC; node "2" GOUT; node "3" DC; node "4" GSCC ]
  = Ret [ ("GSCC", F64.of_Z 60); ("GOUT", F64.of_Z 20); ("DC", F64.of_Z 20) ].
Proof. vm_compute. reflexivity. Qed.

End Runs.


(** ** The reciprocity rate as a count over directed edges *)

Section DirectedRate.

Import InterstingStats.

Lemma filter_ext_in {A} (P Q : A -> Prop) `{forall x, Decision (P x)}
    `{forall x, Decision (Q x)} (l : list A) :
  (forall x, x ∈ l -> P x <-> Q x) -> filter P l = filter Q l.
Proof.
  induction l as [|x l IH]; intros Hl; [reflexivity|].
  rewrite !filter_cons.
  assert (Hx : P x <-> Q x) by (apply Hl; constructor).
  rewrite IH by (intros y Hy; apply Hl; constructor; exact Hy).
  destruct (decide (P x)), (decide (Q x)); tauto.
Qed.

(** A map that is injective on the elements of a list keeps the number of
    distinct elements. *)
Lemma size_fmap_inj_on {A B} `{Countable A} `{Countable B} (f : A -> B)
    (l : list A) :
  (forall x y, x ∈ l -> y ∈ l -> f x = f y -> x = y) ->
  size (list_to_set (f <$> l) : gset B) = size (list_to_set l : gset A).
Proof.
  induction l as [|x l IH]; intros Hinj; [reflexivity|].
  rewrite fmap_cons, !list_to_set_cons.
  assert (IH' : size (list_to_set (f <$> l) : gset B)
                = size (list_to_set l : gset A)).
  { apply IH. intros a b Ha Hb. apply Hinj; constructor; assumption. }
  destruct (decide (x ∈ l)) as [Hin|Hnin].
  - assert (Hfin : f x ∈ f <$> l) by (apply list_elem_of_fmap; eauto).
    rewrite (subseteq_union_1_L ({[f x]} : gset B)),
            (subseteq_union_1_L ({[x]} : gset A)); [exact IH'| |].
    + apply singleton_subseteq_l, elem_of_list_to_set, Hin.
    + apply singleton_subseteq_l, elem_of_list_to_set, Hfin.
  - assert (Hfnin : f x ∉ f <$> l).
    { intros Hfin. apply list_elem_of_fmap in Hfin as (y & Heq & Hy).
      apply Hnin. rewrite (Hinj x y); [exact Hy|constructor| |exact Heq].
      constructor. exact Hy. }
    rewrite !size_union, !size_singleton, IH'; [reflexivity| |].
    + apply disjoint_singleton_l. rewrite elem_of_list_to_set. exact Hnin.
    + apply disjoint_singleton_l. rewrite elem_of_list_to_set. exact Hfnin.
Qed.

Lemma arrow_pair_inj (p q : string * string) :
  dash_free p.1 -> dash_free q.1 -> arrow p = arrow q -> p = q.
Proof.
  destruct p as [a b], q as [c d]. unfold arrow. simpl. intros Ha Hc H.
  destruct (arrow_inj a b c d Ha Hc H) as [-> ->]. reflexivity.
Qed.

(** For plain names the written key stands for the pair of names. *)
Lemma reverse_key_in_pairs (samples : list Edge) (e : Edge) :
  plain_names samples ->
  e ∈ samples ->
  arrow (reverse_pair e) ∈ distinct_keys samples
  <-> reverse_pair e ∈ distinct_pairs samples.
Proof.
  intros Hplain He. unfold distinct_keys, distinct_pairs.
  rewrite !elem_of_list_to_set, !list_elem_of_fmap. split.
  - intros (y & Heq & Hy). exists y. split; [|exact Hy].
    apply arrow_pair_inj; [apply (Hplain e He) | apply (Hplain y Hy) | exact Heq].
  - intros (y & Heq & Hy). exists y. split; [congruence | exact Hy].
Qed.

Lemma distinct_keys_size (samples : list Edge) :
  plain_names samples ->
  size (distinct_keys samples) = size (distinct_pairs samples).
Proof.
  intros Hplain. unfold distinct_keys, distinct_pairs.
  rewrite (list_fmap_compose key_pair arrow).
  apply size_fmap_inj_on. intros p q Hp Hq Heq.
  apply list_elem_of_fmap in Hp as (x & -> & Hx).
  apply list_elem_of_fmap in Hq as (y & -> & Hy).
  apply arrow_pair_inj; [apply (Hplain x Hx) | apply (Hplain y Hy) | exact Heq].
Qed.

Lemma directed_rate_pair_rate (samples : list Edge) :
  plain_names samples -> directed_rate samples = pair_rate samples.
Proof.
  intros Hplain. unfold directed_rate, pair_rate.
  rewrite (distinct_keys_size samples Hplain).
  rewrite (filter_ext_in
             (fun e => arrow (reverse_pair e) ∈ distinct_keys samples)
             (fun e => reverse_pair e ∈ distinct_pairs samples) samples);
    [reflexivity|].
  intros e He. apply reverse_key_in_pairs; assumption.
Qed.

(** The rate of the model is the rate on written keys. *)
Lemma reciprocity_rate_directed (samples : list Edge) :
  reciprocity_rate samples = directed_rate samples.
Proof. reflexivity. Qed.

(** C9: on a non-empty collection (of fewer than 2^53 edges, so that the
    counts convert exactly) the statistic is the number of edges whose
    reverse key, destination name [->] source name, is in the set [K] of
    distinct keys, times 100, divided by the size of [K]: a count over
    directed edges.  When the names are plain, as those of the sampler's
    nodes are, this is the same count on ordered pairs of names: the edges
    whose pair (destination name, source name) is the pair of some edge,
    divided by the number of distinct pairs. *)
Theorem getReciprocityRate_value (samples : list Edge) :
  samples <> [] ->
  (Z.of_nat (length samples) < 2 ^ 53)%Z ->
  getReciprocityRate samples = Ret (directed_rate samples)
  /\ (plain_names samples ->
      getReciprocityRate samples = Ret (pair_rate samples)).
Proof.
  intros Hne Hlen.
  rewrite (getReciprocityRate_model samples Hne Hlen),
          reciprocity_rate_directed.
  split; [reflexivity|].
  intros Hplain. rewrite (directed_rate_pair_rate samples Hplain).
  reflexivity.
Qed.

Lemma getReciprocityRate_value_witness :
  let n0 := {| Name := "0"; Type_ := Some GSCC |} in
  let n1 := {| Name := "1"; Type_ := Some GSCC |} in
  let n2 := {| Name := "2"; Type_ := Some GOUT |} in
  let samples := [ {| Source := n0; Dest := n1; Reciproc := true |};
                   {| Source := n1; Dest := n0; Reciproc := true |};
                   {| Source := n0; Dest := n2; Reciproc := false |} ] in
  getReciprocityRate samples = Ret (directed_rate samples)
  /\ getReciprocityRate samples = Ret (pair_rate samples).
Proof.
  intros n0 n1 n2 samples.
  destruct (getReciprocityRate_value samples) as [Hkeys Hpairs].
  - discriminate.
  - simpl. lia.
  - split; [exact Hkeys|]. apply Hpairs.
    intros e He. subst samples.
    repeat (apply elem_of_cons in He as [-> | He];
            [split; (apply dash_free_cons;
                     split; [discriminate | apply dash_free_nil])|]).
    inversion He.
Defined.

(** On the three edges 0->1, 1->0, 0->2 both counts give two reciprocated
    edges out of three. *)
Example two_of_three_pairs :
  let n0 := {| Name := "0"; Type_ := Some GSCC |} in
  let n1 := {| Name := "1"; Type_ := Some GSCC |} in
  let n2 := {| Name := "2"; Type_ := Some GOUT |} in
  let samples := [ {| Source := n0; Dest := n1; Reciproc := true |};
                   {| Source := n1; Dest := n0; Reciproc := true |};
                   {| Source := n0; Dest := n2; Reciproc := false |} ] in
  pair_rate samples = F64.div (F64.of_Z 200) (F64.of_Z 3)
  /\ directed_rate samples = F64.div (F64.of_Z 200) (F64.of_Z 3).
Proof. vm_compute. split; reflexivity. Qed.

(** Names that contain an arrow part the two counts: the reverse key of
    the second edge is written like the key of the first, although no edge
    runs from ["a"] to ["b->c"]. *)
Example ambiguous_names :
  let n (s : string) := {| Name := s; Type_ := Some GSCC |} in
  let samples := [ {| Source := n "a->b"; Dest := n "c"; Reciproc := true |};
                   {| Source := n "b->c"; Dest := n "a"; Reciproc := true |} ] in
  getReciprocityRate samples = Ret (F64.of_Z 50)
  /\ pair_rate samples = F64.zero.
Proof. vm_compute. split; reflexivity. Qed.

End DirectedRate.
